(** * The connection manager of the Ably realtime client

    A shallow embedding of [ably/realtime/connection.py]: the
    [ConnectionManager] state machine, its three pending operations
    (connect, close, ping), the protocol-message dispatch, and a small
    model of the asyncio event loop that drives its coroutines. *)

From Stdlib Require Import ZArith QArith.
From stdpp Require Import base option list strings.

Open Scope string_scope.
Open Scope list_scope.

(** ** Data model *)

Module ConnectionState.

(** [class ConnectionState(str, Enum)]. *)
Inductive t : Set :=
| INITIALIZED | CONNECTING | CONNECTED | DISCONNECTED | CLOSING | CLOSED | FAILED.

#[global] Instance state_eq_dec : EqDecision t.
Proof. solve_decision. Defined.

End ConnectionState.

Module ProtocolMessageAction.

(** Modelled from the spec: the enum [ProtocolMessageAction] lives in
    [ably/realtime/websockettransport.py]; the protocol frame shape
    names the actions below, and [OTHER] stands for every action code
    the manager does not dispatch on. *)
Inductive t : Set :=
| HEARTBEAT | CONNECTED | ERROR | CLOSED | ATTACHED | DETACHED | MESSAGE
| OTHER (code : nat).

#[global] Instance action_eq_dec : EqDecision t.
Proof. solve_decision. Defined.

End ProtocolMessageAction.

(** The exceptions that the manager raises or lets through.
    [AblyException(message, status_code, code)]; [Exception_] is the bare
    [Exception()] of [send_protocol_message]; [TransportError] is whatever
    a transport call raises. *)
Inductive exn : Set :=
| AblyException (message : string) (status_code code : Z)
| AblyAuthException (message : string) (status_code code : Z)
| TimeoutError
| CancelledError
| InvalidStateError
| AttributeError
| TypeError
| KeyError
| Exception_
| TransportError (tag : nat).

#[export] Instance exn_eq_dec : EqDecision exn.
Proof. solve_decision. Defined.

(** [@dataclass class ConnectionStateChange]. *)
Record ConnectionStateChange : Set := {
  previous : ConnectionState.t;
  current : ConnectionState.t;
  reason : option exn
}.

(** The [error] member of an ERROR frame. *)
Record ErrorInfo : Set := {
  message : string;
  statusCode : Z;
  code : Z;
  nonfatal : bool
}.

(** A protocol message: a dict with an [action] key and, depending on the
    action, an [error] and an [id] key; [None] is an absent key. *)
Record Frame : Set := {
  action : ProtocolMessageAction.t;
  error : option ErrorInfo;
  id : option string
}.

(** An [asyncio.Future]; every future of the manager resolves to [None]. *)
Inductive FutureState : Set :=
| Pending
| Result
| Failed_with (e : exn)
| Cancelled.

Definition fut := nat.
Definition tref := nat.

(** Modelled from the spec: [WebSocketTransport] is an external
    collaborator; the manager reads and writes [is_connected] and reads
    [ws_connect_task] ([true] when the transport exposes a connect task). *)
Record Transport : Set := {
  is_connected : bool;
  ws_connect_task : bool
}.

Inductive TransportCall : Set :=
| TConnect
| TSend (msg : Frame)
| TClose
| TDispose.

Record Options : Set := {
  realtime_request_timeout : Z;
  disconnected_retry_timeout : Z;
  auto_connect : bool
}.

(** What [asyncio.create_task] is asked to run: [try_connect] creates a
    task for [_connect] with [on_connection_attempt_done] as its done
    callback, [on_connection_attempt_done] one for
    [retry_connection_attempt]. *)
Inductive TaskKind : Set :=
| T_connect
| T_retry.

#[export] Instance TaskKind_eq_dec : EqDecision TaskKind.
Proof. solve_decision. Defined.

(** The manager's fields, followed by the objects it acts on: the futures
    it created, the transports it created, the [connectionstate] events it
    emitted (oldest first), the transport calls it made, the tasks it asked
    the loop to create, the frames it handed to the channels, and the
    clock read by [datetime.now()] (microseconds). *)
Record Mgr : Type := {
  options : Options;
  state : ConnectionState.t;
  connected_future : option fut;
  closed_future : option fut;
  ping_future : option fut;
  ping_id : option string;
  transport : option tref;
  futures : list FutureState;
  transports : list Transport;
  emitted : list ConnectionStateChange;
  calls : list (tref * TransportCall);
  created : list TaskKind;
  forwarded : list Frame;
  clock : Z
}.

Definition with_state (v : ConnectionState.t) (m : Mgr) : Mgr :=
  Build_Mgr (options m) v (connected_future m) (closed_future m) (ping_future m)
    (ping_id m) (transport m) (futures m) (transports m) (emitted m) (calls m)
    (created m) (forwarded m) (clock m).
Definition with_connected_future (v : option fut) (m : Mgr) : Mgr :=
  Build_Mgr (options m) (state m) v (closed_future m) (ping_future m)
    (ping_id m) (transport m) (futures m) (transports m) (emitted m) (calls m)
    (created m) (forwarded m) (clock m).
Definition with_closed_future (v : option fut) (m : Mgr) : Mgr :=
  Build_Mgr (options m) (state m) (connected_future m) v (ping_future m)
    (ping_id m) (transport m) (futures m) (transports m) (emitted m) (calls m)
    (created m) (forwarded m) (clock m).
Definition with_ping_future (v : option fut) (m : Mgr) : Mgr :=
  Build_Mgr (options m) (state m) (connected_future m) (closed_future m) v
    (ping_id m) (transport m) (futures m) (transports m) (emitted m) (calls m)
    (created m) (forwarded m) (clock m).
Definition with_ping_id (v : option string) (m : Mgr) : Mgr :=
  Build_Mgr (options m) (state m) (connected_future m) (closed_future m) (ping_future m)
    v (transport m) (futures m) (transports m) (emitted m) (calls m)
    (created m) (forwarded m) (clock m).
Definition with_transport (v : option tref) (m : Mgr) : Mgr :=
  Build_Mgr (options m) (state m) (connected_future m) (closed_future m) (ping_future m)
    (ping_id m) v (futures m) (transports m) (emitted m) (calls m)
    (created m) (forwarded m) (clock m).
Definition with_futures (v : list FutureState) (m : Mgr) : Mgr :=
  Build_Mgr (options m) (state m) (connected_future m) (closed_future m) (ping_future m)
    (ping_id m) (transport m) v (transports m) (emitted m) (calls m)
    (created m) (forwarded m) (clock m).
Definition with_transports (v : list Transport) (m : Mgr) : Mgr :=
  Build_Mgr (options m) (state m) (connected_future m) (closed_future m) (ping_future m)
    (ping_id m) (transport m) (futures m) v (emitted m) (calls m)
    (created m) (forwarded m) (clock m).
Definition with_emitted (v : list ConnectionStateChange) (m : Mgr) : Mgr :=
  Build_Mgr (options m) (state m) (connected_future m) (closed_future m) (ping_future m)
    (ping_id m) (transport m) (futures m) (transports m) v (calls m)
    (created m) (forwarded m) (clock m).
Definition with_calls (v : list (tref * TransportCall)) (m : Mgr) : Mgr :=
  Build_Mgr (options m) (state m) (connected_future m) (closed_future m) (ping_future m)
    (ping_id m) (transport m) (futures m) (transports m) (emitted m) v
    (created m) (forwarded m) (clock m).
Definition with_created (v : list TaskKind) (m : Mgr) : Mgr :=
  Build_Mgr (options m) (state m) (connected_future m) (closed_future m) (ping_future m)
    (ping_id m) (transport m) (futures m) (transports m) (emitted m) (calls m)
    v (forwarded m) (clock m).
Definition with_forwarded (v : list Frame) (m : Mgr) : Mgr :=
  Build_Mgr (options m) (state m) (connected_future m) (closed_future m) (ping_future m)
    (ping_id m) (transport m) (futures m) (transports m) (emitted m) (calls m)
    (created m) v (clock m).
Definition with_clock (v : Z) (m : Mgr) : Mgr :=
  Build_Mgr (options m) (state m) (connected_future m) (closed_future m) (ping_future m)
    (ping_id m) (transport m) (futures m) (transports m) (emitted m) (calls m)
    (created m) (forwarded m) v.

(** ** Coroutines

    An [async def] runs until it awaits something that is not ready yet.
    [susp A] is where a coroutine stands after such a run: it returned,
    it raised, or it is blocked on an awaitable with the rest of its body
    as continuation. *)

Inductive awaitable : Type :=
| AwFuture (f : fut)                               (* await f *)
| AwWaitFor (f : fut) (shielded : bool) (secs : Q) (* await asyncio.wait_for(f | shield(f), secs) *)
| AwSleep (secs : Q)                               (* await asyncio.sleep(secs) *)
| AwTransport (t : tref) (c : TransportCall)       (* await transport.connect() | send | close | dispose *)
| AwConnectTask (t : tref).                        (* await transport.ws_connect_task *)

Inductive resume : Set :=
| ROk
| RExc (e : exn).

#[local] Unset Elimination Schemes.
Inductive susp (A : Type) : Type :=
| Done (a : A)
| Fail (e : exn)
| Blocked (w : awaitable) (k : resume -> Mgr -> Mgr * susp A).

#[local] Set Elimination Schemes.

Arguments Done {A} a.
Arguments Fail {A} e.
Arguments Blocked {A} w k.

Definition coro (A : Type) : Type := Mgr -> Mgr * susp A.

Definition ret {A} (a : A) : coro A := fun m => (m, Done a).
Definition raise {A} (e : exn) : coro A := fun m => (m, Fail e).
Definition get {A} (f : Mgr -> A) : coro A := fun m => (m, Done (f m)).
Definition modify (f : Mgr -> Mgr) : coro unit := fun m => (f m, Done tt).

Fixpoint bind_susp {A B} (s : susp A) (h : A -> coro B) (m : Mgr) : Mgr * susp B :=
  match s with
  | Done a => h a m
  | Fail e => (m, Fail e)
  | Blocked w k =>
      (m, Blocked w (fun r m' => let '(m'', s') := k r m' in bind_susp s' h m''))
  end.

Definition bind {A B} (c : coro A) (h : A -> coro B) : coro B :=
  fun m => let '(m', s) := c m in bind_susp s h m'.

(** [try: c except ...: h]: [h e] is [None] when no clause catches [e]. *)
Fixpoint catch_susp {A} (s : susp A) (h : exn -> option (coro A)) (m : Mgr) : Mgr * susp A :=
  match s with
  | Done a => (m, Done a)
  | Fail e => match h e with Some c => c m | None => (m, Fail e) end
  | Blocked w k =>
      (m, Blocked w (fun r m' => let '(m'', s') := k r m' in catch_susp s' h m''))
  end.

Definition try_except {A} (c : coro A) (h : exn -> option (coro A)) : coro A :=
  fun m => let '(m', s) := c m in catch_susp s h m'.

Notation "x <- c ;; k" := (bind c (fun x => k))
  (at level 100, c at next level, right associativity).
Notation "c ;; k" := (bind c (fun _ => k))
  (at level 100, right associativity).

Definition when (b : bool) (c : coro unit) : coro unit :=
  if b then c else ret tt.

(** ** asyncio primitives *)

#[export] Instance FutureState_eq_dec : EqDecision FutureState.
Proof. solve_decision. Defined.

Definition fut_state (f : fut) (m : Mgr) : FutureState :=
  default Pending (futures m !! f).

(** What awaiting a future gives once it is done. *)
Definition outcome (s : FutureState) : option resume :=
  match s with
  | Pending => None
  | Result => Some ROk
  | Failed_with e => Some (RExc e)
  | Cancelled => Some (RExc CancelledError)
  end.

(** [asyncio.Future()] *)
Definition Future : coro fut :=
  fun m => (with_futures (futures m ++ [Pending]) m, Done (length (futures m))).

(** [f.set_result(None)]; a future that is no longer pending raises. *)
Definition set_result (f : fut) : coro unit :=
  fun m =>
    match fut_state f m with
    | Pending => (with_futures (<[f := Result]> (futures m)) m, Done tt)
    | _ => (m, Fail InvalidStateError)
    end.

(** [f.set_exception(e)] *)
Definition set_exception (f : fut) (e : exn) : coro unit :=
  fun m =>
    match fut_state f m with
    | Pending => (with_futures (<[f := Failed_with e]> (futures m)) m, Done tt)
    | _ => (m, Fail InvalidStateError)
    end.

(** [f.cancelled()] *)
Definition cancelled (f : fut) : coro bool :=
  get (fun m => bool_decide (fut_state f m = Cancelled)).

Definition resumed (r : resume) : coro unit :=
  match r with
  | ROk => ret tt
  | RExc e => raise e
  end.

Definition block (w : awaitable) : coro unit :=
  fun m => (m, Blocked w (fun r m' => resumed r m')).

(** Awaiting [w], which stands on the future [f]: a future that is done
    gives its outcome at once, a pending one suspends the coroutine. *)
Definition await_on (f : fut) (w : awaitable) : coro unit :=
  fun m =>
    match outcome (fut_state f m) with
    | Some r => resumed r m
    | None => block w m
    end.

(** [await f], where [f] is what a field holds; awaiting [None] is a
    [TypeError]. *)
Definition await_future (f : option fut) : coro unit :=
  match f with
  | Some f => await_on f (AwFuture f)
  | None => raise TypeError
  end.

(** [await asyncio.wait_for(f, secs)], or with [asyncio.shield(f)] in
    place of [f]. When the timer elapses first, the loop resumes the
    coroutine with [TimeoutError]. On a future that is already done this
    gives the outcome without suspending, as [await f] does and as
    [wait_for] does from Python 3.12 on; earlier versions yield to the
    loop for one turn before they give the same outcome. *)
Definition wait_for (f : option fut) (shielded : bool) (secs : Q) : coro unit :=
  match f with
  | Some f => await_on f (AwWaitFor f shielded secs)
  | None => raise TypeError
  end.

(** [asyncio.create_task(...)] *)
Definition create_task (k : TaskKind) : coro unit :=
  modify (fun m => with_created (created m ++ [k]) m).

(** ** The transport, as far as the manager touches it *)

(** Modelled from the spec: a new transport is not connected and has no
    connect task yet. *)
Definition new_transport : Transport :=
  {| is_connected := false; ws_connect_task := false |}.

(** [WebSocketTransport(self)] *)
Definition WebSocketTransport : coro tref :=
  fun m => (with_transports (transports m ++ [new_transport]) m,
            Done (length (transports m))).

(** [await self.transport.connect()] and the like: the call is made, then
    the coroutine waits for the transport. *)
Definition call_transport (t : tref) (c : TransportCall) : coro unit :=
  modify (fun m => with_calls (calls m ++ [(t, c)]) m) ;;
  block (AwTransport t c).

Definition transport_field (f : Transport -> bool) (t : tref) (m : Mgr) : bool :=
  default false (f <$> transports m !! t).

(** [self.transport.is_connected = True] *)
Definition set_is_connected (t : tref) : coro unit :=
  modify (fun m =>
    with_transports
      (alter (fun tr => {| is_connected := true; ws_connect_task := ws_connect_task tr |})
         t (transports m)) m).

(** ** ConnectionManager *)

Import ConnectionState.

(** [__init__(self, realtime, initial_state)] *)
Definition init (o : Options) (initial_state : ConnectionState.t) : Mgr :=
  let connecting := bool_decide (initial_state = CONNECTING) in
  {| options := o;
     state := initial_state;
     connected_future := if connecting then Some 0 else None;
     closed_future := None;
     ping_future := None;
     ping_id := None;
     transport := None;
     futures := if connecting then [Pending] else [];
     transports := [];
     emitted := [];
     calls := [];
     created := [];
     forwarded := [];
     clock := 0 |}.

(** [self.__timeout_in_secs = self.options.realtime_request_timeout / 1000] *)
Definition timeout_in_secs (m : Mgr) : Q :=
  realtime_request_timeout (options m) # 1000.

Definition enact_state_change (new_state : ConnectionState.t) (reason : option exn) : coro unit :=
  current_state <- get state ;;
  modify (with_state new_state) ;;
  modify (fun m =>
    with_emitted (emitted m ++
      [{| previous := current_state; current := new_state; reason := reason |}]) m).

(** How the task of a connection attempt ended, as [task.exception()]
    tells it. *)
Inductive task_outcome : Set :=
| Returned
| Raised (e : exn)
| WasCancelled.

Definition cancelled_exception : exn :=
  AblyException "Connection cancelled due to request timeout. Attempting reconnection..."
    504 50003.

Definition on_connection_attempt_done (task : task_outcome) : coro unit :=
  let exception :=
    match task with
    | WasCancelled => Some cancelled_exception
    | Raised e => Some e
    | Returned => None
    end in
  match exception with
  | None => ret tt
  | Some exception =>
      s <- get state ;;
      if bool_decide (s = CLOSED \/ s = FAILED) then ret tt
      else
        when (bool_decide (s <> DISCONNECTED))
          (cf <- get connected_future ;;
           match cf with
           | Some f => set_exception f exception ;; modify (with_connected_future None)
           | None => ret tt
           end ;;
           enact_state_change DISCONNECTED (Some exception)) ;;
        create_task T_retry
  end.

Definition try_connect : coro unit :=
  create_task T_connect.

Definition retry_connection_attempt : coro unit :=
  o <- get options ;;
  block (AwSleep (disconnected_retry_timeout o # 1000)) ;;
  try_connect.

Definition connect : coro unit :=
  cf <- get connected_future ;;
  match cf with
  | None =>
      f <- Future ;;
      modify (with_connected_future (Some f)) ;;
      try_connect
  | Some _ => ret tt
  end ;;
  cf <- get connected_future ;;
  await_future cf.

Definition connect_impl : coro unit :=
  t <- WebSocketTransport ;;
  modify (with_transport (Some t)) ;;
  call_transport t TConnect ;;
  try_except
    (cf <- get connected_future ;;
     secs <- get timeout_in_secs ;;
     wait_for cf true secs)
    (fun e =>
       match e with
       | TimeoutError => Some (
           let exception := AblyException "Timeout waiting for realtime connection" 504 50003 in
           enact_state_change DISCONNECTED (Some exception) ;;
           t <- get transport ;;
           match t with
           | Some t => call_transport t TDispose (* then [self.tranpsort = None], a new attribute *)
           | None => ret tt
           end ;;
           cf <- get connected_future ;;
           match cf with
           | Some f => set_exception f exception
           | None => raise AttributeError
           end ;;
           raise exception)
       | _ => None
       end).

Definition _connect : coro unit :=
  s <- get state ;;
  if bool_decide (s = CONNECTED) then ret tt
  else if bool_decide (s = CONNECTING) then
    try_except
      (cf <- get connected_future ;;
       match cf with
       | None => f <- Future ;; modify (with_connected_future (Some f))
       | Some _ => ret tt
       end ;;
       cf <- get connected_future ;;
       await_future cf)
      (fun e =>
         match e with
         | CancelledError => Some (raise cancelled_exception)
         | _ => None
         end)
  else
    enact_state_change CONNECTING None ;;
    connect_impl.

Definition close : coro unit :=
  s <- get state ;;
  if bool_decide (s = CLOSED \/ s = INITIALIZED \/ s = FAILED) then
    enact_state_change CLOSED None
  else
    t <- get transport ;;
    match bool_decide (s = DISCONNECTED), t with
    | true, Some t =>
        call_transport t TDispose ;;
        modify (with_transport None) ;;
        enact_state_change CLOSED None
    | _, _ =>
        when (bool_decide (s = CONNECTING))
          (cf <- get connected_future ;; await_future cf) ;;
        enact_state_change CLOSING None ;;
        f <- Future ;;
        modify (with_closed_future (Some f)) ;;
        t <- get transport ;;
        live <- get (fun m => from_option (fun t => transport_field is_connected t m) false t) ;;
        match t, live with
        | Some t, true =>
            call_transport t TClose ;;
            try_except
              (cf <- get closed_future ;;
               secs <- get timeout_in_secs ;;
               wait_for cf false secs)
              (fun e =>
                 match e with
                 | TimeoutError => Some (raise
                     (AblyException "Timeout waiting for connection close response" 504 50003))
                 | _ => None
                 end)
        | _, _ => ret tt
        end ;;
        enact_state_change CLOSED None ;;
        t <- get transport ;;
        task <- get (fun m => from_option (fun t => transport_field ws_connect_task t m) false t) ;;
        match t, task with
        | Some t, true => block (AwConnectTask t)
        | _, _ => ret tt
        end
    end.

Definition send_protocol_message (protocol_message : Frame) : coro unit :=
  t <- get transport ;;
  match t with
  | Some t => call_transport t (TSend protocol_message)
  | None => raise Exception_
  end.

(** [ping]: [rid] is what [helper.get_random_id()] returns in this call.
    The result is [None] for a caller that joined an outstanding ping and
    otherwise the time between the two clock readings, in microseconds;
    the source turns it into milliseconds and rounds it to two places in
    floating point. *)
Definition ping (rid : string) : coro (option Z) :=
  pf <- get ping_future ;;
  match pf with
  | Some _ =>
      try_except
        (pf <- get ping_future ;; await_future pf ;; ret None)
        (fun e =>
           match e with
           | CancelledError => Some (raise
               (AblyException "Ping request cancelled due to request timeout" 504 50003))
           | _ => None
           end)
  | None =>
      f <- Future ;;
      modify (with_ping_future (Some f)) ;;
      s <- get state ;;
      ping_start_time <-
        (if bool_decide (s = CONNECTED \/ s = CONNECTING) then
           modify (with_ping_id (Some rid)) ;;
           ping_start_time <- get clock ;;
           send_protocol_message
             {| action := ProtocolMessageAction.HEARTBEAT; error := None; id := Some rid |} ;;
           ret ping_start_time
         else
           raise (AblyException "Cannot send ping request. Calling ping in invalid state"
                    40000 400)) ;;
      try_except
        (pf <- get ping_future ;;
         secs <- get timeout_in_secs ;;
         wait_for pf false secs)
        (fun e =>
           match e with
           | TimeoutError => Some (raise (AblyException "Timeout waiting for ping response" 504 50003))
           | _ => None
           end) ;;
      ping_end_time <- get clock ;;
      ret (Some (ping_end_time - ping_start_time)%Z)
  end.

Definition on_protocol_message (msg : Frame) : coro unit :=
  let action := action msg in
  when (bool_decide (action = ProtocolMessageAction.CONNECTED))
    (t <- get transport ;;
     match t with
     | Some t => set_is_connected t
     | None => ret tt
     end ;;
     cf <- get connected_future ;;
     match cf with
     | Some f =>
         c <- cancelled f ;;
         when (negb c) (set_result f) ;;
         modify (with_connected_future None)
     | None => ret tt
     end ;;
     enact_state_change CONNECTED None) ;;
  when (bool_decide (action = ProtocolMessageAction.ERROR))
    (match error msg with
     | None => raise KeyError
     | Some error =>
         when (negb (nonfatal error))
           (let exception :=
              AblyAuthException (message error) (statusCode error) (code error) in
            enact_state_change FAILED (Some exception) ;;
            cf <- get connected_future ;;
            match cf with
            | Some f => set_exception f exception ;; modify (with_connected_future None)
            | None => ret tt
            end ;;
            t <- get transport ;;
            match t with
            | Some t => call_transport t TDispose
            | None => ret tt
            end ;;
            raise exception)
     end) ;;
  when (bool_decide (action = ProtocolMessageAction.CLOSED))
    (t <- get transport ;;
     match t with
     | Some t => call_transport t TDispose
     | None => ret tt
     end ;;
     cf <- get closed_future ;;
     match cf with
     | Some f => set_result f
     | None => raise AttributeError
     end) ;;
  when (bool_decide (action = ProtocolMessageAction.HEARTBEAT))
    (pf <- get ping_future ;;
     match pf with
     | Some f =>
         pid <- get ping_id ;;
         match pid with
         | None => raise AttributeError
         | Some pid =>
             when (bool_decide (Some pid = id msg))
               (c <- cancelled f ;;
                when (negb c) (set_result f) ;;
                modify (with_ping_future None))
         end
     | None => ret tt
     end) ;;
  when (bool_decide (action = ProtocolMessageAction.ATTACHED
                     \/ action = ProtocolMessageAction.DETACHED
                     \/ action = ProtocolMessageAction.MESSAGE))
    (modify (fun m => with_forwarded (forwarded m ++ [msg]) m)).

(** ** The event loop

    The loop holds the coroutines that are under way: the calls made by
    the application ([connect], [close], [ping]) and by the transport
    ([on_protocol_message]), and the tasks the manager created. Its moves
    are the things that can happen next: a call comes in, a created task
    starts, an awaited future turns out done, a timer elapses, the
    transport answers, a task is cancelled, a done callback runs. *)

Inductive call : Set :=
| CallConnect
| CallClose
| CallPing (rid : string)
| CallFrame (msg : Frame).

Definition call_body (c : call) : coro (option Z) :=
  match c with
  | CallConnect => connect ;; ret None
  | CallClose => close ;; ret None
  | CallPing rid => ping rid
  | CallFrame msg => on_protocol_message msg ;; ret None
  end.

Definition task_body (k : TaskKind) : coro (option Z) :=
  match k with
  | T_connect => _connect ;; ret None
  | T_retry => retry_connection_attempt ;; ret None
  end.

(** A coroutine of the loop: [kind] is [None] for a call and the task
    kind for a created task; [body] is [None] until the task has started;
    [notified] tells that the done callback has run. *)
Record Task : Type := {
  kind : option TaskKind;
  body : option (susp (option Z));
  notified : bool
}.

Record World : Type := {
  mgr : Mgr;
  pool : list Task;
  loop_errors : list exn  (* exceptions of callbacks, given to the loop's handler *)
}.

Definition created_task (k : TaskKind) : Task :=
  {| kind := Some k; body := None; notified := false |}.

(** After a coroutine ran, the tasks it asked for join the pool. *)
Definition settle (m : Mgr) (p : list Task) (errs : list exn) : World :=
  {| mgr := with_created [] m;
     pool := p ++ (created_task <$> created m);
     loop_errors := errs |}.

Definition with_body (s : susp (option Z)) (t : Task) : Task :=
  {| kind := kind t; body := Some s; notified := notified t |}.

(** [f.cancel()]: only a pending future changes. *)
Definition cancel (f : fut) (m : Mgr) : Mgr :=
  match fut_state f m with
  | Pending => with_futures (<[f := Cancelled]> (futures m)) m
  | _ => m
  end.

Definition task_result {A} (s : susp A) : option task_outcome :=
  match s with
  | Done _ => Some Returned
  | Fail CancelledError => Some WasCancelled
  | Fail e => Some (Raised e)
  | Blocked _ _ => None
  end.

Inductive move : Type :=
| Call (c : call)
| Start (i : nat)
| Wake (i : nat)
| Timeout (i : nat)
| Elapse (i : nat)
| Reply (i : nat) (r : resume)
| Cancel (i : nat)
| Callback (i : nat)
| Tick (us : Z)
| TransportSet (t : tref) (tr : Transport).

(** Task [i], blocked on [w], goes on with [r] from the manager [m]. *)
Definition go_on (i : nat) (t : Task) (k : resume -> Mgr -> Mgr * susp (option Z))
    (r : resume) (m : Mgr) (w : World) : World :=
  let '(m', s') := k r m in
  settle m' (<[i := with_body s' t]> (pool w)) (loop_errors w).

Definition step (w : World) (a : move) : option World :=
  let m := mgr w in
  match a with
  | Call c =>
      let '(m', s) := call_body c m in
      Some (settle m' (pool w ++ [{| kind := None; body := Some s; notified := false |}])
              (loop_errors w))
  | Start i =>
      match pool w !! i with
      | Some {| kind := Some k; body := None; notified := n |} =>
          let '(m', s) := task_body k m in
          Some (settle m'
                  (<[i := {| kind := Some k; body := Some s; notified := n |}]> (pool w))
                  (loop_errors w))
      | _ => None
      end
  | Wake i =>
      match pool w !! i with
      | Some t =>
          match body t with
          | Some (Blocked (AwFuture f) k) | Some (Blocked (AwWaitFor f _ _) k) =>
              match outcome (fut_state f m) with
              | Some r => Some (go_on i t k r m w)
              | None => None
              end
          | _ => None
          end
      | None => None
      end
  | Timeout i =>
      match pool w !! i with
      | Some t =>
          match body t with
          | Some (Blocked (AwWaitFor f shielded _) k) =>
              match fut_state f m with
              | Pending =>
                  Some (go_on i t k (RExc TimeoutError) (if shielded then m else cancel f m) w)
              | _ => None
              end
          | _ => None
          end
      | None => None
      end
  | Elapse i =>
      match pool w !! i with
      | Some t =>
          match body t with
          | Some (Blocked (AwSleep _) k) => Some (go_on i t k ROk m w)
          | _ => None
          end
      | None => None
      end
  | Reply i r =>
      match pool w !! i with
      | Some t =>
          match body t with
          | Some (Blocked (AwTransport _ _) k) | Some (Blocked (AwConnectTask _) k) =>
              Some (go_on i t k r m w)
          | _ => None
          end
      | None => None
      end
  | Cancel i =>
      match pool w !! i with
      | Some t =>
          match body t with
          | Some (Blocked (AwFuture f) k) | Some (Blocked (AwWaitFor f false _) k) =>
              Some (go_on i t k (RExc CancelledError) (cancel f m) w)
          | Some (Blocked _ k) => Some (go_on i t k (RExc CancelledError) m w)
          | _ => None
          end
      | None => None
      end
  | Callback i =>
      match pool w !! i with
      | Some {| kind := Some T_connect; body := Some s; notified := false |} =>
          match task_result s with
          | Some o =>
              let '(m', r) := on_connection_attempt_done o m in
              Some (settle m'
                      (<[i := {| kind := Some T_connect; body := Some s; notified := true |}]>
                         (pool w))
                      (match r with Fail e => loop_errors w ++ [e] | _ => loop_errors w end))
          | None => None
          end
      | _ => None
      end
  | Tick us =>
      if bool_decide (0 <= us)%Z then
        Some {| mgr := with_clock (clock m + us)%Z m; pool := pool w;
                loop_errors := loop_errors w |}
      else None
  | TransportSet t tr =>
      Some {| mgr := with_transports (<[t := tr]> (transports m)) m; pool := pool w;
              loop_errors := loop_errors w |}
  end.

Fixpoint exec (w : World) (l : list move) : option World :=
  match l with
  | [] => Some w
  | a :: l' =>
      match step w a with
      | Some w' => exec w' l'
      | None => None
      end
  end.

Definition start_world (m : Mgr) : World :=
  {| mgr := m; pool := []; loop_errors := [] |}.

(** [Connection.__init__]: the facade picks the manager's initial state. *)
Definition Connection_init (o : Options) : Mgr :=
  init o (if auto_connect o then CONNECTING else INITIALIZED).

(** The worlds that a connection can reach. *)
Definition reachable (o : Options) (w : World) : Prop :=
  exists l, exec (start_world (Connection_init o)) l = Some w.

(** What is visible of a task: where it stands, without its continuation. *)
Inductive standing : Type :=
| NotStarted
| Returns (v : option Z)
| Raises (e : exn)
| Awaits (w : awaitable).

Definition standing_of (t : Task) : standing :=
  match body t with
  | None => NotStarted
  | Some (Done v) => Returns v
  | Some (Fail e) => Raises e
  | Some (Blocked w _) => Awaits w
  end.

Definition standings (w : World) : list (option TaskKind * standing) :=
  (fun t => (kind t, standing_of t)) <$> pool w.

(** Where a coroutine stands, and how it goes on when it is resumed. *)
Definition awaiting {A} (s : susp A) : option awaitable :=
  match s with
  | Blocked w _ => Some w
  | _ => None
  end.

Definition continue {A} (s : susp A) (r : resume) (m : Mgr) : Mgr * susp A :=
  match s with
  | Blocked _ k => k r m
  | _ => (m, s)
  end.

(** Options used by the worked examples. *)
Definition sample_options : Options :=
  {| realtime_request_timeout := 10000;
     disconnected_retry_timeout := 15000;
     auto_connect := false |}.

Definition invalid_state_error : exn :=
  AblyException "Cannot send ping request. Calling ping in invalid state" 40000 400.

Definition closed_frame : Frame :=
  {| action := ProtocolMessageAction.CLOSED; error := None; id := None |}.

Definition auth_error (e : ErrorInfo) : exn :=
  AblyAuthException (message e) (statusCode e) (code e).

Definition fatal_frame : Frame :=
  {| action := ProtocolMessageAction.ERROR;
     error := Some {| message := "Invalid key"; statusCode := 401; code := 40005;
                      nonfatal := false |};
     id := None |}.

Definition close_timeout_error : exn :=
  AblyException "Timeout waiting for connection close response" 504 50003.

Definition connected_frame : Frame :=
  {| action := ProtocolMessageAction.CONNECTED; error := None; id := None |}.

(** A run of the loop seen from outside: the state it ends in and where
    each coroutine stands. *)
Definition state_after (w : World) (l : list move) : option ConnectionState.t :=
  (fun w' => state (mgr w')) <$> exec w l.

Definition standings_after (w : World) (l : list move)
    : option (list (option TaskKind * standing)) :=
  standings <$> exec w l.

(** A connection that is established: [connect()] is called (coroutine
    0), the attempt task starts (1) and its transport connects, the
    connected frame comes in (2), and the attempt and the caller see the
    connect future resolved. *)
Definition connect_run : list move :=
  [Call CallConnect; Start 1; Reply 1 ROk; Call (CallFrame connected_frame);
   Wake 1; Callback 1; Wake 0].

Definition connected_world : World :=
  default (start_world (Connection_init sample_options))
    (exec (start_world (Connection_init sample_options)) connect_run).

(** ** The chain of emitted state changes *)

(** The changes in [l] lead from [first] to [last], each starting where
    the one before it ended. *)
Fixpoint linked (first : ConnectionState.t) (l : list ConnectionStateChange)
    (last : ConnectionState.t) : Prop :=
  match l with
  | [] => first = last
  | e :: l' => previous e = first /\ linked (current e) l' last
  end.

(** Each change's [previous] is the [current] of the change before it. *)
Definition consecutive (l : list ConnectionStateChange) : Prop :=
  forall i e1 e2, l !! i = Some e1 -> l !! S i = Some e2 -> previous e2 = current e1.

(** The emitted changes lead from the initial state to the current one. *)
Definition chained (s0 : ConnectionState.t) (m : Mgr) : Prop :=
  linked s0 (emitted m) (state m).

(** A suspended coroutine keeps [P] whenever and however it is resumed. *)
Inductive safe (P : Mgr -> Prop) {A : Type} : susp A -> Prop :=
| safe_Done (a : A) : safe P (Done a)
| safe_Fail (e : exn) : safe P (Fail e)
| safe_Blocked (w : awaitable) (k : resume -> Mgr -> Mgr * susp A) :
    (forall r m, P m -> P (fst (k r m))) ->
    (forall r m, P m -> safe P (snd (k r m))) ->
    safe P (Blocked w k).

Definition preserves (P : Mgr -> Prop) {A : Type} (c : coro A) : Prop :=
  forall m, P m -> P (fst (c m)) /\ safe P (snd (c m)).

Definition world_ok (P : Mgr -> Prop) (w : World) : Prop :=
  P (mgr w) /\ forall t s, t ∈ pool w -> body t = Some s -> safe P s.

Definition connect_timeout_error : exn :=
  AblyException "Timeout waiting for realtime connection" 504 50003.

(** A connection attempt that gets no connected frame: [connect()] is
    called (coroutine 0), the attempt task starts (1), its transport
    connects, the timer of the wait elapses, the transport is disposed,
    and the done callback of the task runs. *)
Definition timeout_run : list move :=
  [Call CallConnect; Start 1; Reply 1 ROk; Timeout 1; Reply 1 ROk; Callback 1].

Definition timed_out_world : World :=
  default (start_world (Connection_init sample_options))
    (exec (start_world (Connection_init sample_options)) timeout_run).

(** The manager after a first [connect()] and the start of its attempt. *)
Definition connecting_mgr : Mgr :=
  fst (connect_impl (fst (connect (init sample_options INITIALIZED)))).


Definition ping_timeout_error : exn :=
  AblyException "Timeout waiting for ping response" 504 50003.

Definition heartbeat_frame (rid : string) : Frame :=
  {| action := ProtocolMessageAction.HEARTBEAT; error := None; id := Some rid |}.

(** [close()] on the established connection (coroutine 3) whose wait for
    the closed frame times out. *)
Definition close_timeout_run : list move :=
  [Call CallClose; Reply 3 ROk; Timeout 3].

(** The attempt of [timeout_run] has failed and its retry task (2) is
    asleep when the application closes the connection (coroutine 3). *)
Definition close_before_retry_run : list move :=
  timeout_run ++ [Start 2; Call CallClose; Reply 3 ROk].

(** A first attempt (task 1) fails in the transport and its retry task
    (2) is asleep; the application calls [connect()] again (coroutine 3,
    attempt task 4), and this attempt is answered by a fatal error frame
    (coroutine 5). *)
Definition fail_before_retry_run : list move :=
  [Call CallConnect; Start 1; Reply 1 (RExc (TransportError 0)); Callback 1; Start 2;
   Call CallConnect; Start 4; Reply 4 ROk; Call (CallFrame fatal_frame); Reply 5 ROk;
   Wake 4; Callback 4].

Definition ping_cancelled_error : exn :=
  AblyException "Ping request cancelled due to request timeout" 504 50003.

(** The exception that [on_connection_attempt_done] works with, if any. *)
Definition failure (task : task_outcome) : option exn :=
  match task with
  | Returned => None
  | Raised e => Some e
  | WasCancelled => Some cancelled_exception
  end.

(** ** The Connection facade *)

Module Connection.

(** The fields of [class Connection]: [state] and [error_reason], and
    the emissions it has handed to the loop with [call_soon], each under
    the name of the new state. *)
Record t : Type := {
  state : ConnectionState.t;
  error_reason : option exn;
  scheduled : list (ConnectionState.t * ConnectionStateChange)
}.

(** [__init__]: the state that the manager is created with. *)
Definition new (o : Options) : t :=
  {| state := if auto_connect o then CONNECTING else INITIALIZED;
     error_reason := None;
     scheduled := [] |}.

Definition _on_state_update (c : t) (state_change : ConnectionStateChange) : t :=
  {| state := current state_change;
     error_reason := reason state_change;
     scheduled := scheduled c ++ [(current state_change, state_change)] |}.

(** Modelled from the spec: the event emitter is an external
    collaborator; [_emit] hands each [connectionstate] event to the
    subscribed handler, in the order of emission. The facade after the
    manager has emitted [l]: *)
Definition after (o : Options) (l : list ConnectionStateChange) : t :=
  foldl _on_state_update (new o) l.

End Connection.


(** After the attempt of [timeout_run] the retry task (2) sleeps and
    then creates the second attempt (task 3), which starts. *)
Definition retry_run : list move :=
  timeout_run ++ [Start 2; Elapse 2; Start 3].

(** * Properties *)

(** Settle the tests of a coroutine: a [bool_decide] whose proposition
    follows from, or is refuted by, the context. *)
Ltac tests :=
  repeat first
    [ rewrite bool_decide_eq_true_2 by (intuition congruence)
    | rewrite bool_decide_eq_false_2 by (intuition congruence) ].

Ltac run := repeat (progress (cbn; tests)).

(** ** ping in an invalid state *)

Lemma ping_invalid_run (m : Mgr) (rid : string) :
  ping_future m = None -> state m <> CONNECTED -> state m <> CONNECTING ->
  ping rid m =
    (with_ping_future (Some (length (futures m))) (with_futures (futures m ++ [Pending]) m),
     Fail invalid_state_error).
Proof.
  intros Hp Hs1 Hs2.
  unfold ping, bind, get. rewrite Hp. cbn.
  rewrite bool_decide_eq_false_2 by tauto. reflexivity.
Qed.

(** C7: a [ping()] made with no ping outstanding while the state is
    neither connected nor connecting fails before its first suspension
    with the invalid-state error; it makes no transport call (so no
    heartbeat is sent), emits no state change and leaves the state as it
    was. *)
Theorem ping_invalid_state_fails_synchronously (m : Mgr) (rid : string) :
  ping_future m = None -> state m <> CONNECTED -> state m <> CONNECTING ->
  snd (ping rid m) = Fail invalid_state_error /\
  calls (fst (ping rid m)) = calls m /\
  state (fst (ping rid m)) = state m /\
  emitted (fst (ping rid m)) = emitted m /\
  created (fst (ping rid m)) = created m.
Proof.
  intros Hp Hs1 Hs2. rewrite ping_invalid_run by assumption. cbn. tauto.
Qed.

Lemma ping_invalid_state_fails_synchronously_witness :
  snd (ping "abc" (init sample_options DISCONNECTED)) = Fail invalid_state_error /\
  calls (fst (ping "abc" (init sample_options DISCONNECTED))) = [] /\
  state (fst (ping "abc" (init sample_options DISCONNECTED))) = DISCONNECTED /\
  emitted (fst (ping "abc" (init sample_options DISCONNECTED))) = [] /\
  created (fst (ping "abc" (init sample_options DISCONNECTED))) = [].
Proof.
  apply (ping_invalid_state_fails_synchronously (init sample_options DISCONNECTED) "abc");
    [reflexivity | discriminate | discriminate].
Defined.

Lemma ping_joins (m : Mgr) (rid : string) (f : fut) :
  ping_future m = Some f -> fut_state f m = Pending ->
  fst (ping rid m) = m /\ awaiting (snd (ping rid m)) = Some (AwFuture f).
Proof.
  intros Hp Hf.
  unfold ping, bind, get, try_except. rewrite Hp. cbn. rewrite Hp.
  unfold await_future, await_on. rewrite Hf. cbn. split; reflexivity.
Qed.

(** C9: the [ping()] that raised the invalid-state error leaves
    [ping_future] set to the future it created, still pending; from then
    on, whatever the state, a [ping()] made while the field holds that
    future changes nothing and awaits it: it neither checks the state nor
    raises the invalid-state error. *)
Theorem ping_future_left_set_after_invalid_state (m : Mgr) (rid : string) :
  ping_future m = None -> state m <> CONNECTED -> state m <> CONNECTING ->
  exists f,
    ping_future (fst (ping rid m)) = Some f /\
    fut_state f (fst (ping rid m)) = Pending /\
    forall (m' : Mgr) (rid' : string),
      ping_future m' = Some f -> fut_state f m' = Pending ->
      fst (ping rid' m') = m' /\
      awaiting (snd (ping rid' m')) = Some (AwFuture f).
Proof.
  intros Hp Hs1 Hs2. exists (length (futures m)).
  rewrite ping_invalid_run by assumption. cbn. split; [reflexivity |]. split.
  - unfold fut_state. cbn. rewrite list_lookup_middle by reflexivity. reflexivity.
  - intros m' rid' Hp' Hf'. apply ping_joins; assumption.
Qed.

Lemma ping_future_left_set_after_invalid_state_witness :
  exists f,
    ping_future (fst (ping "abc" (init sample_options CLOSED))) = Some f /\
    fut_state f (fst (ping "abc" (init sample_options CLOSED))) = Pending /\
    forall (m' : Mgr) (rid' : string),
      ping_future m' = Some f -> fut_state f m' = Pending ->
      fst (ping rid' m') = m' /\
      awaiting (snd (ping rid' m')) = Some (AwFuture f).
Proof.
  apply (ping_future_left_set_after_invalid_state (init sample_options CLOSED) "abc");
    [reflexivity | discriminate | discriminate].
Defined.

(** ** A closed frame with no close under way *)

(** C10: when a closed frame is handled while [closed_future] is [None],
    the handler raises. Without a transport it raises [AttributeError]
    at once; with one it first disposes it and, as long as no [close()]
    has set the field in between, raises [AttributeError] when the
    dispose call returns (and the transport's own error when the call
    fails). *)
Theorem closed_frame_without_close_raises (m : Mgr) (msg : Frame) :
  action msg = ProtocolMessageAction.CLOSED -> closed_future m = None ->
  match transport m with
  | None => on_protocol_message msg m = (m, Fail AttributeError)
  | Some t =>
      awaiting (snd (on_protocol_message msg m)) = Some (AwTransport t TDispose) /\
      (forall m', closed_future m' = None ->
         continue (snd (on_protocol_message msg m)) ROk m' = (m', Fail AttributeError)) /\
      (forall m' e,
         continue (snd (on_protocol_message msg m)) (RExc e) m' = (m', Fail e))
  end.
Proof.
  intros Ha Hc. unfold on_protocol_message, bind, get, when. rewrite Ha. run.
  destruct (transport m) as [t|] eqn:Ht; run.
  - split; [reflexivity |]. split.
    + intros m' Hc'. rewrite Hc'. reflexivity.
    + intros m' e. reflexivity.
  - rewrite Hc. reflexivity.
Qed.

Lemma closed_frame_without_close_raises_witness :
  on_protocol_message closed_frame (init sample_options CONNECTED)
  = (init sample_options CONNECTED, Fail AttributeError).
Proof.
  apply (closed_frame_without_close_raises (init sample_options CONNECTED) closed_frame);
    reflexivity.
Defined.

(** ** A fatal error frame *)

Lemma fut_state_lookup (f : fut) (m : Mgr) (s : FutureState) :
  futures m !! f = Some s -> fut_state f m = s.
Proof. intros H. unfold fut_state. rewrite H. reflexivity. Qed.

(** In the states closed and failed the completion of an attempt changes
    nothing and asks for no task, however the attempt ended. *)
Lemma attempt_done_in_terminal_state (m : Mgr) (o : task_outcome) :
  state m = CLOSED \/ state m = FAILED ->
  on_connection_attempt_done o m = (m, Done tt).
Proof.
  intros Hs. unfold on_connection_attempt_done, bind, get.
  destruct o; run; reflexivity.
Qed.

(** A fatal error frame ([nonfatal] false) handled while connecting,
    with the connect future pending. The handler moves to failed, emitting
    the change with the error built from the frame's message, statusCode
    and code; it fails the connect future with that error and clears the
    field; it creates no task; it disposes the transport, if there is
    one, and then raises the error. Afterwards no retry is scheduled: as
    long as the state is failed, the completion of an attempt, however it
    ended, is a no-op. *)
Theorem fatal_error_while_connecting (m : Mgr) (msg : Frame) (err : ErrorInfo) (f : fut) :
  state m = CONNECTING ->
  action msg = ProtocolMessageAction.ERROR ->
  error msg = Some err -> nonfatal err = false ->
  connected_future m = Some f -> futures m !! f = Some Pending ->
  let m1 := fst (on_protocol_message msg m) in
  let s1 := snd (on_protocol_message msg m) in
  state m1 = FAILED /\
  emitted m1 = emitted m ++
    [{| previous := CONNECTING; current := FAILED; reason := Some (auth_error err) |}] /\
  futures m1 !! f = Some (Failed_with (auth_error err)) /\
  connected_future m1 = None /\
  created m1 = created m /\
  match transport m with
  | Some t =>
      calls m1 = calls m ++ [(t, TDispose)] /\
      awaiting s1 = Some (AwTransport t TDispose) /\
      forall m', continue s1 ROk m' = (m', Fail (auth_error err))
  | None => calls m1 = calls m /\ s1 = Fail (auth_error err)
  end /\
  forall m' o, state m' = FAILED -> on_connection_attempt_done o m' = (m', Done tt).
Proof.
  intros Hs Ha He Hn Hc Hf.
  assert (Hlt : f < length (futures m)) by (eapply lookup_lt_Some; eassumption).
  apply fut_state_lookup in Hf.
  unfold on_protocol_message, bind, get, when, set_exception, fut_state in *.
  rewrite Ha, He, Hn. run. rewrite Hc. run. rewrite Hf. run.
  destruct (transport m) as [t|] eqn:Ht; run; rewrite ?Hs;
    repeat split; try reflexivity;
    try (apply list_lookup_insert_eq; assumption);
    intros m' o Hs'; apply attempt_done_in_terminal_state; tauto.
Qed.

Lemma fatal_error_while_connecting_witness :
  state (fst (on_protocol_message fatal_frame (init sample_options CONNECTING))) = FAILED /\
  snd (on_protocol_message fatal_frame (init sample_options CONNECTING))
  = Fail (AblyAuthException "Invalid key" 401 40005).
Proof.
  pose proof (fatal_error_while_connecting (init sample_options CONNECTING) fatal_frame
                {| message := "Invalid key"; statusCode := 401; code := 40005;
                   nonfatal := false |} 0
                eq_refl eq_refl eq_refl eq_refl eq_refl eq_refl) as H.
  cbv zeta in H. destruct H as (H1 & _ & _ & _ & _ & H2 & _).
  split; [exact H1 | exact (proj2 H2)].
Defined.

(** ** close from connected *)

Example connected_world_reached :
  exec (start_world (Connection_init sample_options)) connect_run = Some connected_world /\
  state (mgr connected_world) = CONNECTED /\
  transport (mgr connected_world) = Some 0 /\
  transports (mgr connected_world) = [{| is_connected := true; ws_connect_task := false |}] /\
  calls (mgr connected_world) = [(0, TConnect)] /\
  standings connected_world
  = [(None, Returns None); (Some T_connect, Returns None); (None, Returns None)].
Proof. vm_compute. repeat split; reflexivity. Qed.

(** The closed frame resolves the close future, after the transport is
    disposed. *)
Lemma closed_frame_resolves_close (m : Mgr) (t : tref) (f : fut) :
  transport m = Some t -> 
  awaiting (snd (on_protocol_message closed_frame m)) = Some (AwTransport t TDispose) /\
  forall m', closed_future m' = Some f -> futures m' !! f = Some Pending ->
    continue (snd (on_protocol_message closed_frame m)) ROk m'
    = (with_futures (<[f := Result]> (futures m')) m', Done tt).
Proof.
  intros Ht. unfold on_protocol_message, bind, get, when. run. rewrite Ht. run.
  split; [reflexivity |]. intros m' Hc Hf. apply fut_state_lookup in Hf.
  rewrite Hc. unfold set_result. rewrite Hf. reflexivity.
Qed.

(** C1, as the code has it: [close()] called in the state connected with
    a transport that reports itself connected moves to closing, creates
    the close future, calls the transport's close and, when that call
    returns with the future still pending, waits for the future under
    [realtime_request_timeout]. When the timer elapses first, the call
    raises the timeout error and changes nothing: the state stays as it
    was, closing, and the transition to closed is not made. When the
    future is resolved in time, the call moves to closed and returns,
    after awaiting the transport's connect task if it has one. *)
Theorem close_from_connected (m : Mgr) (t : tref) (tr : Transport) :
  state m = CONNECTED -> transport m = Some t ->
  transports m !! t = Some tr -> is_connected tr = true ->
  let f := length (futures m) in
  let m1 := fst (close m) in
  let s1 := snd (close m) in
  (state m1 = CLOSING /\ closed_future m1 = Some f /\ futures m1 !! f = Some Pending /\
   calls m1 = calls m ++ [(t, TClose)] /\ awaiting s1 = Some (AwTransport t TClose)) /\
  forall m2, closed_future m2 = Some f -> futures m2 !! f = Some Pending ->
    let s2 := snd (continue s1 ROk m2) in
    fst (continue s1 ROk m2) = m2 /\
    awaiting s2 = Some (AwWaitFor f false (timeout_in_secs m2)) /\
    (forall m3, continue s2 (RExc TimeoutError) m3 = (m3, Fail close_timeout_error)) /\
    (forall m3,
       let m4 := fst (continue s2 ROk m3) in
       let s4 := snd (continue s2 ROk m3) in
       state m4 = CLOSED /\
       emitted m4
       = emitted m3 ++ [{| previous := state m3; current := CLOSED; reason := None |}] /\
       (s4 = Done tt \/
        exists t', awaiting s4 = Some (AwConnectTask t') /\
                   forall m5, continue s4 ROk m5 = (m5, Done tt))).
Proof.
  intros Hs Ht Htr Hc. cbv zeta.
  unfold close, bind, get, when, transport_field, enact_state_change. run.
  rewrite Hs. run. rewrite Ht. run. rewrite Htr. run. rewrite Hc. run.
  split.
  - repeat split; try reflexivity. apply list_lookup_middle. reflexivity.
  - intros m2 Hc2 Hf2. apply fut_state_lookup in Hf2.
    unfold try_except, wait_for, await_on. rewrite Hc2, Hf2. run.
    split; [reflexivity |]. split; [reflexivity |]. split; [intros m3; reflexivity |].
    intros m3.
    destruct (transport m3) as [t'|] eqn:Ht3; run.
    + destruct (default false (ws_connect_task <$> transports m3 !! t')); run.
      * repeat split. right. exists t'. split; [reflexivity |]. intros m5. reflexivity.
      * repeat split. left. reflexivity.
    + repeat split. left. reflexivity.
Qed.

Lemma close_from_connected_witness :
  state (fst (close (mgr connected_world))) = CLOSING /\
  awaiting (snd (close (mgr connected_world))) = Some (AwTransport 0 TClose).
Proof.
  pose proof (close_from_connected (mgr connected_world) 0
                {| is_connected := true; ws_connect_task := false |}
                eq_refl eq_refl eq_refl eq_refl) as H.
  cbv zeta in H. destruct H as [(H1 & _ & _ & _ & H2) _].
  split; [exact H1 | exact H2].
Defined.

(** C1, as it is stated, fails: in the established connection
    [connected_world], [close()] is called (coroutine 3), the transport's
    close returns, and the timer of the wait elapses with no closed frame.
    The call raises the timeout error and the state is closing, not
    closed. *)
Lemma close_timeout_does_not_end_closed :
  standings_after connected_world [Call CallClose; Reply 3 ROk; Timeout 3]
  = Some [(None, Returns None); (Some T_connect, Returns None); (None, Returns None);
          (None, Raises close_timeout_error)] /\
  state_after connected_world [Call CallClose; Reply 3 ROk; Timeout 3] = Some CLOSING /\
  state_after connected_world [Call CallClose; Reply 3 ROk; Timeout 3] <> Some CLOSED.
Proof. vm_compute. repeat split; discriminate. Qed.

(** The same call with the closed frame (coroutine 4) in time. *)
Example close_in_time_ends_closed :
  standings_after connected_world
    [Call CallClose; Reply 3 ROk; Call (CallFrame closed_frame); Reply 4 ROk; Wake 3]
  = Some [(None, Returns None); (Some T_connect, Returns None); (None, Returns None);
          (None, Returns None); (None, Returns None)] /\
  state_after connected_world
    [Call CallClose; Reply 3 ROk; Call (CallFrame closed_frame); Reply 4 ROk; Wake 3]
  = Some CLOSED.
Proof. vm_compute. split; reflexivity. Qed.

(** ** The chain of state changes *)

Lemma linked_snoc (a b c : ConnectionState.t) (l : list ConnectionStateChange)
    (r : option exn) :
  linked a l b -> linked a (l ++ [{| previous := b; current := c; reason := r |}]) c.
Proof.
  revert a. induction l as [|e l IH]; intros a H; cbn in *.
  - subst. split; reflexivity.
  - destruct H as [H1 H2]. split; [assumption | apply IH; assumption].
Qed.

Lemma linked_consecutive (a b : ConnectionState.t) (l : list ConnectionStateChange) :
  linked a l b -> consecutive l.
Proof.
  revert a. induction l as [|e l IH]; intros a H i e1 e2 H1 H2.
  - discriminate.
  - cbn in H. destruct H as [_ H]. destruct i as [|i]; cbn in H1, H2.
    + injection H1 as <-. destruct l as [|e' l']; [discriminate |].
      cbn in H2. injection H2 as <-. cbn in H. tauto.
    + eapply IH; eassumption.
Qed.

Section Preservation.

Context (P : Mgr -> Prop).

(** A coroutine that never suspends keeps [P] if its run does. *)
Lemma preserves_now {A} (c : coro A) :
  (forall m, P m -> P (fst (c m)) /\ awaiting (snd (c m)) = None) -> preserves P c.
Proof.
  intros H m Hm. destruct (H m Hm) as [H1 H2]. split; [assumption |].
  destruct (snd (c m)); [constructor | constructor | discriminate].
Qed.

Lemma safe_bind_susp {A B} (s : susp A) (h : A -> coro B) :
  safe P s -> (forall a, preserves P (h a)) ->
  forall m, P m -> P (fst (bind_susp s h m)) /\ safe P (snd (bind_susp s h m)).
Proof.
  intros Hs Hh. induction Hs as [a | e | w k Hk1 Hk2 IH]; intros m Hm; cbn.
  - apply Hh. assumption.
  - split; [assumption | constructor].
  - split; [assumption |]. constructor; intros r m' Hm';
      specialize (IH r m' Hm' (fst (k r m')) (Hk1 r m' Hm'));
      destruct (k r m') as [m'' s']; cbn in *; tauto.
Qed.

Lemma preserves_bind {A B} (c : coro A) (h : A -> coro B) :
  preserves P c -> (forall a, preserves P (h a)) -> preserves P (bind c h).
Proof.
  intros Hc Hh m Hm. unfold bind. destruct (Hc m Hm) as [H1 H2].
  destruct (c m) as [m' s]. cbn in *. apply safe_bind_susp; assumption.
Qed.

Lemma safe_catch_susp {A} (s : susp A) (h : exn -> option (coro A)) :
  safe P s -> (forall e c, h e = Some c -> preserves P c) ->
  forall m, P m -> P (fst (catch_susp s h m)) /\ safe P (snd (catch_susp s h m)).
Proof.
  intros Hs Hh. induction Hs as [a | e | w k Hk1 Hk2 IH]; intros m Hm; cbn.
  - split; [assumption | constructor].
  - destruct (h e) as [c|] eqn:He.
    + apply (Hh e c He). assumption.
    + split; [assumption | constructor].
  - split; [assumption |]. constructor; intros r m' Hm';
      specialize (IH r m' Hm' (fst (k r m')) (Hk1 r m' Hm'));
      destruct (k r m') as [m'' s']; cbn in *; tauto.
Qed.

Lemma preserves_try_except {A} (c : coro A) (h : exn -> option (coro A)) :
  preserves P c -> (forall e c', h e = Some c' -> preserves P c') ->
  preserves P (try_except c h).
Proof.
  intros Hc Hh m Hm. unfold try_except. destruct (Hc m Hm) as [H1 H2].
  destruct (c m) as [m' s]. cbn in *. apply safe_catch_susp; assumption.
Qed.

Lemma preserves_ret {A} (a : A) : preserves P (ret a).
Proof. apply preserves_now. intros m Hm. split; [assumption | reflexivity]. Qed.

Lemma preserves_raise {A} (e : exn) : preserves P (@raise A e).
Proof. apply preserves_now. intros m Hm. split; [assumption | reflexivity]. Qed.

Lemma preserves_get {A} (f : Mgr -> A) : preserves P (get f).
Proof. apply preserves_now. intros m Hm. split; [assumption | reflexivity]. Qed.

Lemma preserves_modify (f : Mgr -> Mgr) :
  (forall m, P m -> P (f m)) -> preserves P (modify f).
Proof. intros Hf. apply preserves_now. intros m Hm. split; [apply Hf; assumption | reflexivity]. Qed.

Lemma preserves_resumed (r : resume) : preserves P (resumed r).
Proof. destruct r; [apply preserves_ret | apply preserves_raise]. Qed.

Lemma preserves_block (w : awaitable) : preserves P (block w).
Proof.
  intros m Hm. split; [assumption |]. constructor; intros r m' Hm';
    apply preserves_resumed; assumption.
Qed.

Lemma preserves_await_on (f : fut) (w : awaitable) : preserves P (await_on f w).
Proof.
  intros m Hm. unfold await_on. destruct (outcome (fut_state f m)).
  - apply preserves_resumed. assumption.
  - apply preserves_block. assumption.
Qed.

Lemma preserves_await_future (f : option fut) : preserves P (await_future f).
Proof. destruct f; [apply preserves_await_on | apply preserves_raise]. Qed.

Lemma preserves_wait_for (f : option fut) (sh : bool) (secs : Q) :
  preserves P (wait_for f sh secs).
Proof. destruct f; [apply preserves_await_on | apply preserves_raise]. Qed.

Lemma preserves_when (b : bool) (c : coro unit) :
  preserves P c -> preserves P (when b c).
Proof. intros Hc. destruct b; [assumption | apply preserves_ret]. Qed.

End Preservation.

Section Chained.

Context (s0 : ConnectionState.t).

Local Abbreviation keeps := (preserves (chained s0)).

(** A step that touches neither the state nor the emitted changes. *)
Ltac untouched :=
  apply preserves_now; intros m Hm; cbn;
  repeat match goal with |- context [match ?x with _ => _ end] => destruct x end;
  split; (exact Hm || reflexivity).

Lemma keeps_Future : keeps Future.
Proof. untouched. Qed.

Lemma keeps_set_result (f : fut) : keeps (set_result f).
Proof. unfold set_result. untouched. Qed.

Lemma keeps_set_exception (f : fut) (e : exn) : keeps (set_exception f e).
Proof. unfold set_exception. untouched. Qed.

Lemma keeps_cancelled (f : fut) : keeps (cancelled f).
Proof. apply preserves_get. Qed.

Lemma keeps_create_task (k : TaskKind) : keeps (create_task k).
Proof. untouched. Qed.

Lemma keeps_WebSocketTransport : keeps WebSocketTransport.
Proof. untouched. Qed.

Lemma keeps_set_is_connected (t : tref) : keeps (set_is_connected t).
Proof. untouched. Qed.

Lemma keeps_call_transport (t : tref) (c : TransportCall) : keeps (call_transport t c).
Proof.
  apply preserves_bind; [untouched | intros _; apply preserves_block].
Qed.

(** The single mutation point: the new change starts at the state the
    chain has reached and ends at the new state. *)
Lemma keeps_enact_state_change (s : ConnectionState.t) (r : option exn) :
  keeps (enact_state_change s r).
Proof.
  apply preserves_now. intros m Hm. cbn. split; [| reflexivity].
  unfold chained in *. cbn. apply linked_snoc. assumption.
Qed.

Lemma cancel_keeps (f : fut) (m : Mgr) : chained s0 m -> chained s0 (cancel f m).
Proof. intros Hm. unfold cancel. destruct (fut_state f m); exact Hm. Qed.

(** Take a coroutine apart along its structure. *)
Ltac keep :=
  lazymatch goal with
  | |- preserves _ (bind _ _) => apply preserves_bind; [keep | intros ?; keep]
  | |- preserves _ (try_except _ _) =>
      apply preserves_try_except;
      [keep | let e := fresh in let c := fresh in let H := fresh in
              intros e c H; destruct e; try discriminate H;
              injection H as <-; keep]
  | |- preserves _ (when _ _) => apply preserves_when; keep
  | |- preserves _ (ret _) => apply preserves_ret
  | |- preserves _ (raise _) => apply preserves_raise
  | |- preserves _ (get _) => apply preserves_get
  | |- preserves _ (modify _) => apply preserves_modify; intros ? H; exact H
  | |- preserves _ (block _) => apply preserves_block
  | |- preserves _ (await_future _) => apply preserves_await_future
  | |- preserves _ (wait_for _ _ _) => apply preserves_wait_for
  | |- preserves _ Future => apply keeps_Future
  | |- preserves _ (set_result _) => apply keeps_set_result
  | |- preserves _ (set_exception _ _) => apply keeps_set_exception
  | |- preserves _ (cancelled _) => apply keeps_cancelled
  | |- preserves _ (create_task _) => apply keeps_create_task
  | |- preserves _ WebSocketTransport => apply keeps_WebSocketTransport
  | |- preserves _ (set_is_connected _) => apply keeps_set_is_connected
  | |- preserves _ (call_transport _ _) => apply keeps_call_transport
  | |- preserves _ (enact_state_change _ _) => apply keeps_enact_state_change
  | |- preserves _ (match ?x with _ => _ end) => destruct x; keep
  | |- preserves _ (let _ := _ in _) => cbv zeta; keep
  | |- _ => idtac
  end.

Lemma keeps_on_connection_attempt_done (o : task_outcome) :
  keeps (on_connection_attempt_done o).
Proof. unfold on_connection_attempt_done. destruct o; keep. Qed.

Lemma keeps_try_connect : keeps try_connect.
Proof. unfold try_connect. keep. Qed.

Lemma keeps_retry_connection_attempt : keeps retry_connection_attempt.
Proof. unfold retry_connection_attempt, try_connect. keep. Qed.

Lemma keeps_connect : keeps connect.
Proof. unfold connect, try_connect. keep. Qed.

Lemma keeps_connect_impl : keeps connect_impl.
Proof. unfold connect_impl. keep. Qed.

Lemma keeps__connect : keeps _connect.
Proof. unfold _connect. keep; apply keeps_connect_impl. Qed.

Lemma keeps_close : keeps close.
Proof. unfold close. keep. Qed.

Lemma keeps_send_protocol_message (msg : Frame) : keeps (send_protocol_message msg).
Proof. unfold send_protocol_message. keep. Qed.

Lemma keeps_ping (rid : string) : keeps (ping rid).
Proof. unfold ping, send_protocol_message. keep. Qed.

Lemma keeps_on_protocol_message (msg : Frame) : keeps (on_protocol_message msg).
Proof. unfold on_protocol_message. keep. Qed.

Lemma keeps_call_body (c : call) : keeps (call_body c).
Proof.
  destruct c; cbn; [| | apply keeps_ping |]; apply preserves_bind;
    try (intros; apply preserves_ret);
    [apply keeps_connect | apply keeps_close | apply keeps_on_protocol_message].
Qed.

Lemma keeps_task_body (k : TaskKind) : keeps (task_body k).
Proof.
  destruct k; cbn; apply preserves_bind; try (intros; apply preserves_ret);
    [apply keeps__connect | apply keeps_retry_connection_attempt].
Qed.

End Chained.

Section Loop.

Context (s0 : ConnectionState.t).

Local Abbreviation P := (chained s0).

Lemma safe_resume {A} (w : awaitable) (k : resume -> Mgr -> Mgr * susp A)
    (r : resume) (m : Mgr) :
  safe P (Blocked w k) -> P m -> P (fst (k r m)) /\ safe P (snd (k r m)).
Proof. intros H Hm. inversion H; subst. split; auto. Qed.

Lemma settle_ok (m : Mgr) (p : list Task) (errs : list exn) :
  P m -> (forall t s, t ∈ p -> body t = Some s -> safe P s) ->
  world_ok P (settle m p errs).
Proof.
  intros Hm Hp. split; [exact Hm |]. cbn. intros t s Ht Hs.
  apply elem_of_app in Ht as [Ht | Ht]; [eauto |].
  apply list_elem_of_fmap in Ht as (k & -> & _). discriminate.
Qed.

Lemma insert_ok (p : list Task) (i : nat) (t' : Task) :
  (forall t s, t ∈ p -> body t = Some s -> safe P s) ->
  (forall s, body t' = Some s -> safe P s) ->
  forall t s, t ∈ <[i := t']> p -> body t = Some s -> safe P s.
Proof.
  intros Hp Ht' t s Ht Hs. apply list_elem_of_lookup in Ht as [j Hj].
  apply list_lookup_insert_Some in Hj as [(_ & <- & _) | (_ & Hj)]; [auto |].
  eapply Hp; [eapply list_elem_of_lookup_2; eassumption | assumption].
Qed.

Lemma go_on_ok (i : nat) (t : Task) (a : awaitable)
    (k : resume -> Mgr -> Mgr * susp (option Z)) (r : resume) (m : Mgr) (w : World) :
  world_ok P w -> pool w !! i = Some t -> body t = Some (Blocked a k) -> P m ->
  world_ok P (go_on i t k r m w).
Proof.
  intros [_ Hp] Hi Hb Hm. unfold go_on.
  assert (Hk : safe P (Blocked a k))
    by (eapply Hp; [eapply list_elem_of_lookup_2; eassumption | assumption]).
  destruct (safe_resume a k r m Hk Hm) as [H1 H2].
  destruct (k r m) as [m' s']. cbn in *. apply settle_ok; [assumption |].
  apply insert_ok; [assumption |]. cbn. intros s [= <-]. assumption.
Qed.

Lemma start_world_ok (m : Mgr) : P m -> world_ok P (start_world m).
Proof. intros Hm. split; [exact Hm |]. cbn. intros t s Ht. inversion Ht. Qed.

Lemma step_ok (w w' : World) (a : move) :
  world_ok P w -> step w a = Some w' -> world_ok P w'.
Proof.
  intros Hw Hstep. pose proof Hw as [Hm Hp]. destruct a as [c|i|i|i|i|i r|i|i|us|t tr]; cbn in Hstep.
  - pose proof (keeps_call_body s0 c (mgr w) Hm) as [H1 H2].
    destruct (call_body c (mgr w)) as [m' s]. injection Hstep as <-.
    apply settle_ok; [assumption |]. intros t s' Ht Hs.
    apply elem_of_app in Ht as [Ht | Ht]; [eauto |].
    apply list_elem_of_singleton in Ht as ->. cbn in Hs. injection Hs as <-. assumption.
  - destruct (pool w !! i) as [[[k|] [s|] n]|] eqn:Hi; try discriminate.
    pose proof (keeps_task_body s0 k (mgr w) Hm) as [H1 H2].
    destruct (task_body k (mgr w)) as [m' s]. injection Hstep as <-.
    apply settle_ok; [assumption |]. apply insert_ok; [assumption |].
    cbn. intros s' [= <-]. assumption.
  - destruct (pool w !! i) as [t|] eqn:Hi; [| discriminate].
    destruct (body t) as [[v|e|[f|f sh secs|secs|t' c|t'] k]|] eqn:Hb; try discriminate;
      destruct (outcome (fut_state f (mgr w))) as [r|]; try discriminate;
      injection Hstep as <-; eapply go_on_ok; eassumption.
  - destruct (pool w !! i) as [t|] eqn:Hi; [| discriminate].
    destruct (body t) as [[v|e|[f|f sh secs|secs|t' c|t'] k]|] eqn:Hb; try discriminate.
    destruct (fut_state f (mgr w)) eqn:Hf; try discriminate.
    injection Hstep as <-. eapply go_on_ok; try eassumption.
    destruct sh; [assumption | apply cancel_keeps; assumption].
  - destruct (pool w !! i) as [t|] eqn:Hi; [| discriminate].
    destruct (body t) as [[v|e|[f|f sh secs|secs|t' c|t'] k]|] eqn:Hb; try discriminate.
    injection Hstep as <-. eapply go_on_ok; eassumption.
  - destruct (pool w !! i) as [t|] eqn:Hi; [| discriminate].
    destruct (body t) as [[v|e|[f|f sh secs|secs|t' c|t'] k]|] eqn:Hb; try discriminate;
      injection Hstep as <-; eapply go_on_ok; eassumption.
  - destruct (pool w !! i) as [t|] eqn:Hi; [| discriminate].
    destruct (body t) as [[v|e|[f|f [|] secs|secs|t' c|t'] k]|] eqn:Hb; try discriminate;
      injection Hstep as <-; eapply go_on_ok; try eassumption;
      apply cancel_keeps; assumption.
  - destruct (pool w !! i) as [[[[|]|] [s|] [|]]|] eqn:Hi; try discriminate.
    destruct (task_result s) as [o|]; [| discriminate].
    pose proof (keeps_on_connection_attempt_done s0 o (mgr w) Hm) as [H1 _].
    destruct (on_connection_attempt_done o (mgr w)) as [m' r].
    injection Hstep as <-. apply settle_ok; [assumption |].
    apply insert_ok; [assumption |]. cbn. intros s' [= <-].
    eapply Hp; [eapply list_elem_of_lookup_2; eassumption | reflexivity].
  - destruct (bool_decide (0 <= us)%Z); [| discriminate].
    injection Hstep as <-. split; [exact Hm | exact Hp].
  - injection Hstep as <-. split; [exact Hm | exact Hp].
Qed.

Lemma exec_ok (l : list move) (w w' : World) :
  world_ok P w -> exec w l = Some w' -> world_ok P w'.
Proof.
  revert w. induction l as [|a l IH]; intros w Hw H; cbn in H.
  - injection H as <-. assumption.
  - destruct (step w a) as [w1|] eqn:Hs; [| discriminate].
    eapply IH; [eapply step_ok; eassumption | assumption].
Qed.

End Loop.

Lemma init_chained (o : Options) (s : ConnectionState.t) : chained s (init o s).
Proof. reflexivity. Qed.

(** C8: in every world that a connection can reach, whatever calls,
    frames, timers, transport answers and cancellations led to it, each
    emitted [ConnectionStateChange] has as [previous] the [current] of the
    change emitted just before it; the chain starts at the initial state
    and ends at the manager's current state. *)
Theorem emitted_changes_are_consecutive (o : Options) (w : World) :
  reachable o w ->
  consecutive (emitted (mgr w)) /\
  linked (if auto_connect o then CONNECTING else INITIALIZED) (emitted (mgr w))
    (state (mgr w)).
Proof.
  intros [l Hl].
  assert (H : world_ok (chained (if auto_connect o then CONNECTING else INITIALIZED)) w).
  { eapply exec_ok; [| exact Hl]. apply start_world_ok. apply init_chained. }
  destruct H as [H _]. split; [eapply linked_consecutive |]; exact H.
Qed.

Lemma emitted_changes_are_consecutive_witness :
  consecutive (emitted (mgr connected_world)) /\
  linked INITIALIZED (emitted (mgr connected_world)) (state (mgr connected_world)).
Proof.
  apply (emitted_changes_are_consecutive sample_options connected_world).
  exists connect_run. vm_compute. reflexivity.
Defined.

(** ** A connection attempt that times out *)

(** A first connection attempt, the connect future being pending:
    [connect_impl] creates a transport, calls
    its connect and waits for the connect future, shielded, under
    [realtime_request_timeout]. When the timer elapses the attempt moves
    to disconnected, emitting the change with the timeout error, and
    disposes the transport; when the dispose call returns it fails the
    connect future with the same error and raises it. The done callback
    of the failed attempt, finding the state disconnected, creates the
    retry task, which sleeps for [disconnected_retry_timeout] and then
    creates the next attempt. *)
Theorem attempt_timeout_disconnects_and_retries (m : Mgr) :
  let t := length (transports m) in
  let m1 := fst (connect_impl m) in
  let s1 := snd (connect_impl m) in
  (transport m1 = Some t /\ calls m1 = calls m ++ [(t, TConnect)] /\
   awaiting s1 = Some (AwTransport t TConnect)) /\
  (forall m2 f, connected_future m2 = Some f -> futures m2 !! f = Some Pending ->
     let s2 := snd (continue s1 ROk m2) in
     fst (continue s1 ROk m2) = m2 /\
     awaiting s2 = Some (AwWaitFor f true (realtime_request_timeout (options m2) # 1000)) /\
     forall m3 t3, transport m3 = Some t3 ->
       let m4 := fst (continue s2 (RExc TimeoutError) m3) in
       let s4 := snd (continue s2 (RExc TimeoutError) m3) in
       state m4 = DISCONNECTED /\
       emitted m4 = emitted m3 ++
         [{| previous := state m3; current := DISCONNECTED;
             reason := Some connect_timeout_error |}] /\
       calls m4 = calls m3 ++ [(t3, TDispose)] /\
       awaiting s4 = Some (AwTransport t3 TDispose) /\
       forall m5 f5, connected_future m5 = Some f5 -> futures m5 !! f5 = Some Pending ->
         continue s4 ROk m5
         = (with_futures (<[f5 := Failed_with connect_timeout_error]> (futures m5)) m5,
            Fail connect_timeout_error)) /\
  (forall m6, state m6 = DISCONNECTED ->
     on_connection_attempt_done (Raised connect_timeout_error) m6
     = (with_created (created m6 ++ [T_retry]) m6, Done tt)) /\
  (forall m7,
     fst (retry_connection_attempt m7) = m7 /\
     awaiting (snd (retry_connection_attempt m7))
     = Some (AwSleep (disconnected_retry_timeout (options m7) # 1000)) /\
     forall m8, continue (snd (retry_connection_attempt m7)) ROk m8
                = (with_created (created m8 ++ [T_connect]) m8, Done tt)).
Proof.
  cbv zeta. unfold connect_impl, bind, get. run. split; [repeat split |]. split.
  - intros m2 f Hc2 Hf2. apply fut_state_lookup in Hf2.
    unfold try_except, wait_for, await_on, bind, get. run. rewrite Hc2. run. rewrite Hf2. run.
    split; [reflexivity |]. split; [reflexivity |].
    intros m3 t3 Ht3. rewrite Ht3. run.
    split; [reflexivity |]. split; [reflexivity |]. split; [reflexivity |].
    split; [reflexivity |].
    intros m5 f5 Hc5 Hf5. apply fut_state_lookup in Hf5.
    rewrite Hc5. unfold set_exception. rewrite Hf5. reflexivity.
  - split.
    + intros m6 Hs6. unfold on_connection_attempt_done, bind, get, when. run. reflexivity.
    + intros m7. unfold retry_connection_attempt, bind, get. run. repeat split.
Qed.

(** The whole of it in one run of the loop: after [timeout_run] the
    state is disconnected, the transport was disposed, the connect future
    is failed, the attempt task (1) raised the timeout error and the
    retry task (2) is there; when the retry task has slept, there is a
    new attempt task (3), which moves to connecting and connects a new
    transport. *)
Example attempt_timeout_run :
  let w := timed_out_world in
  exec (start_world (Connection_init sample_options)) timeout_run = Some w /\
  state (mgr w) = DISCONNECTED /\
  calls (mgr w) = [(0, TConnect); (0, TDispose)] /\
  futures (mgr w) = [Failed_with connect_timeout_error] /\
  standings w = [(None, Awaits (AwFuture 0)); (Some T_connect, Raises connect_timeout_error);
                 (Some T_retry, NotStarted)] /\
  standings_after w [Wake 0; Start 2]
  = Some [(None, Raises connect_timeout_error); (Some T_connect, Raises connect_timeout_error);
          (Some T_retry, Awaits (AwSleep (15000 # 1000)))] /\
  standings_after w [Wake 0; Start 2; Elapse 2; Start 3]
  = Some [(None, Raises connect_timeout_error); (Some T_connect, Raises connect_timeout_error);
          (Some T_retry, Returns None);
          (Some T_connect, Awaits (AwTransport 1 TConnect))] /\
  state_after w [Wake 0; Start 2; Elapse 2; Start 3] = Some CONNECTING.
Proof. vm_compute. repeat split; reflexivity. Qed.

Lemma attempt_timeout_disconnects_and_retries_witness :
  state (fst (continue (snd (continue (snd (connect_impl
           (fst (connect (init sample_options INITIALIZED))))) ROk connecting_mgr))
         (RExc TimeoutError) connecting_mgr))
  = DISCONNECTED.
Proof.
  pose proof (attempt_timeout_disconnects_and_retries
                (fst (connect (init sample_options INITIALIZED)))) as H.
  cbv zeta in H. destruct H as (_ & H & _).
  specialize (H connecting_mgr 0 eq_refl eq_refl). cbv zeta in H.
  destruct H as (_ & _ & H). specialize (H connecting_mgr 0 eq_refl).
  exact (proj1 H).
Defined.

(** ** Concurrent calls of connect *)

(** A [connect()] made while the connect future is set and pending
    changes nothing and awaits that future; what it then does depends on
    the future's outcome alone. *)
Lemma connect_joins (m : Mgr) (f : fut) :
  connected_future m = Some f -> futures m !! f = Some Pending ->
  fst (connect m) = m /\
  awaiting (snd (connect m)) = Some (AwFuture f) /\
  forall r m', continue (snd (connect m)) r m' = resumed r m'.
Proof.
  intros Hc Hf. apply fut_state_lookup in Hf.
  unfold connect, bind, get. rewrite Hc. run. rewrite Hc.
  unfold await_future, await_on. rewrite Hf. run.
  repeat split.
Qed.





(** The same in the loop: three calls, one attempt task, one transport
    connect; the connected frame resolves the one future and all three
    callers return. *)
Example three_connects_one_attempt :
  standings_after (start_world (Connection_init sample_options))
    [Call CallConnect; Call CallConnect; Call CallConnect; Start 1; Reply 1 ROk]
  = Some [(None, Awaits (AwFuture 0)); (Some T_connect, Awaits (AwWaitFor 0 true (10000 # 1000)));
          (None, Awaits (AwFuture 0)); (None, Awaits (AwFuture 0))] /\
  (calls ∘ mgr <$> exec (start_world (Connection_init sample_options))
    [Call CallConnect; Call CallConnect; Call CallConnect; Start 1; Reply 1 ROk])
  = Some [(0, TConnect)] /\
  standings_after (start_world (Connection_init sample_options))
    [Call CallConnect; Call CallConnect; Call CallConnect; Start 1; Reply 1 ROk;
     Call (CallFrame connected_frame); Wake 0; Wake 1; Wake 2; Wake 3]
  = Some [(None, Returns None); (Some T_connect, Returns None);
          (None, Returns None); (None, Returns None); (None, Returns None)].
Proof. vm_compute. repeat split; reflexivity. Qed.

(** ** Resolving a pending operation twice *)

(** A closed frame handled while the close future is set but no longer
    pending: [set_result] raises. *)
Lemma closed_frame_on_settled_close_future (m : Mgr) (t : tref) :
  transport m = Some t ->
  forall m' f s, closed_future m' = Some f -> futures m' !! f = Some s -> s <> Pending ->
    continue (snd (on_protocol_message closed_frame m)) ROk m' = (m', Fail InvalidStateError).
Proof.
  intros Ht m' f s Hc Hf Hs. apply fut_state_lookup in Hf.
  unfold on_protocol_message, bind, get, when. run. rewrite Ht. run.
  rewrite Hc. unfold set_result. rewrite Hf. destruct s; [congruence | reflexivity ..].
Qed.

(** C6 fails on the code. The close future resolved by the timer: after
    [close_timeout_run] the future is cancelled, and the closed frame that
    comes late (coroutine 4) makes the handler raise [InvalidStateError].
    The close future resolved by the frame: a second closed frame
    (coroutine 5) does the same. The connect future failed by the timed
    out attempt: the retried attempt (task 3) fails at once on the stale
    future and its done callback, failing the future again, raises
    [InvalidStateError] into the loop. *)
Theorem second_resolution_raises :
  (futures ∘ mgr <$> exec connected_world close_timeout_run) = Some [Result; Cancelled] /\
  standings_after connected_world
    (close_timeout_run ++ [Call (CallFrame closed_frame); Reply 4 ROk])
  = Some [(None, Returns None); (Some T_connect, Returns None); (None, Returns None);
          (None, Raises close_timeout_error); (None, Raises InvalidStateError)] /\
  standings_after connected_world
    [Call CallClose; Reply 3 ROk; Call (CallFrame closed_frame); Reply 4 ROk; Wake 3;
     Call (CallFrame closed_frame); Reply 5 ROk]
  = Some [(None, Returns None); (Some T_connect, Returns None); (None, Returns None);
          (None, Returns None); (None, Returns None); (None, Raises InvalidStateError)] /\
  (loop_errors <$> exec (start_world (Connection_init sample_options))
     (timeout_run ++ [Start 2; Elapse 2; Start 3; Reply 3 ROk; Callback 3]))
  = Some [InvalidStateError].
Proof. vm_compute. repeat split; reflexivity. Qed.

(** The ping future is safe: when the wait of [ping()] (coroutine 3) has
    timed out and cancelled it, the heartbeat that comes late (coroutine
    4) finds it cancelled, skips [set_result] and clears the field. *)
Example late_heartbeat_is_ignored :
  standings_after connected_world
    [Call (CallPing "a1"); Reply 3 ROk; Timeout 3; Call (CallFrame (heartbeat_frame "a1"))]
  = Some [(None, Returns None); (Some T_connect, Returns None); (None, Returns None);
          (None, Raises ping_timeout_error); (None, Returns None)] /\
  (ping_future ∘ mgr <$> exec connected_world
    [Call (CallPing "a1"); Reply 3 ROk; Timeout 3; Call (CallFrame (heartbeat_frame "a1"))])
  = Some None.
Proof. vm_compute. repeat split; reflexivity. Qed.

(** ** A retry timer that fires in a terminal state *)

(** The attempt algorithm tests for connected and connecting only: from
    any other state, closed and failed included, it moves to connecting
    and connects a new transport. *)
Lemma _connect_from_terminal_state (m : Mgr) :
  state m = CLOSED \/ state m = FAILED ->
  state (fst (_connect m)) = CONNECTING /\
  emitted (fst (_connect m))
  = emitted m ++ [{| previous := state m; current := CONNECTING; reason := None |}] /\
  calls (fst (_connect m)) = calls m ++ [(length (transports m), TConnect)].
Proof.
  intros Hs. unfold _connect, connect_impl, bind, get. run. repeat split.
Qed.

(** C2 fails on the code. After [close_before_retry_run] the state is
    closed and the retry task (2) is asleep; when its timer fires it
    creates an attempt task (4), and the attempt moves from closed to
    connecting and connects a second transport. After
    [fail_before_retry_run] the state is failed, and the retry task (2)
    does the same from failed (attempt task 6, third transport). *)
Theorem fired_retry_leaves_terminal_state :
  state_after (start_world (Connection_init sample_options)) close_before_retry_run
  = Some CLOSED /\
  state_after (start_world (Connection_init sample_options))
    (close_before_retry_run ++ [Elapse 2; Start 4])
  = Some CONNECTING /\
  (calls ∘ mgr <$> exec (start_world (Connection_init sample_options))
    (close_before_retry_run ++ [Elapse 2; Start 4]))
  = Some [(0, TConnect); (0, TDispose); (0, TDispose); (1, TConnect)] /\
  state_after (start_world (Connection_init sample_options)) fail_before_retry_run
  = Some FAILED /\
  state_after (start_world (Connection_init sample_options))
    (fail_before_retry_run ++ [Elapse 2; Start 6])
  = Some CONNECTING /\
  (calls ∘ mgr <$> exec (start_world (Connection_init sample_options))
    (fail_before_retry_run ++ [Elapse 2; Start 6]))
  = Some [(0, TConnect); (1, TConnect); (1, TDispose); (2, TConnect)].
Proof. vm_compute. repeat split; reflexivity. Qed.

(** * Further properties of the manager *)

(** ** close in the other states *)

(** In the states closed, initialized and failed, [close()] returns
    without suspending: it emits one change to closed and touches neither
    a transport nor a future. *)
Theorem close_in_initial_or_terminal_state (m : Mgr) :
  state m = CLOSED \/ state m = INITIALIZED \/ state m = FAILED ->
  close m
  = (with_emitted
       (emitted m ++ [{| previous := state m; current := CLOSED; reason := None |}])
       (with_state CLOSED m),
     Done tt).
Proof.
  intros Hs. unfold close, bind, get. run. reflexivity.
Qed.

Lemma close_in_initial_or_terminal_state_witness :
  close (init sample_options INITIALIZED)
  = (with_emitted [{| previous := INITIALIZED; current := CLOSED; reason := None |}]
       (with_state CLOSED (init sample_options INITIALIZED)),
     Done tt).
Proof.
  apply (close_in_initial_or_terminal_state (init sample_options INITIALIZED)).
  right. left. reflexivity.
Defined.

(** In the state disconnected with a transport, [close()] disposes the
    transport and, when the call returns, drops it and moves straight to
    closed: the state closing is not entered and no close future is
    created. When the dispose call fails, its error is raised and
    nothing is changed. *)
Theorem close_from_disconnected_disposes (m : Mgr) (t : tref) :
  state m = DISCONNECTED -> transport m = Some t ->
  fst (close m) = with_calls (calls m ++ [(t, TDispose)]) m /\
  awaiting (snd (close m)) = Some (AwTransport t TDispose) /\
  (forall m',
     continue (snd (close m)) ROk m'
     = (with_emitted
          (emitted m' ++ [{| previous := state m'; current := CLOSED; reason := None |}])
          (with_state CLOSED (with_transport None m')),
        Done tt)) /\
  (forall e m', continue (snd (close m)) (RExc e) m' = (m', Fail e)).
Proof.
  intros Hs Ht. unfold close, bind, get. run. rewrite Ht. run.
  repeat split.
Qed.

Lemma close_from_disconnected_disposes_witness :
  awaiting (snd (close (mgr timed_out_world))) = Some (AwTransport 0 TDispose).
Proof.
  exact (proj1 (proj2 (close_from_disconnected_disposes (mgr timed_out_world) 0
                         eq_refl eq_refl))).
Defined.

(** In the state connecting, [close()] first awaits the connect future.
    It changes nothing until the future is settled; when the future
    fails, [close()] raises that error and makes no transition at all;
    with no connect future to await it raises [TypeError]. *)
Theorem close_while_connecting_awaits_connect (m : Mgr) :
  state m = CONNECTING ->
  match connected_future m with
  | None => close m = (m, Fail TypeError)
  | Some f =>
      futures m !! f = Some Pending ->
      fst (close m) = m /\
      awaiting (snd (close m)) = Some (AwFuture f) /\
      forall e m', continue (snd (close m)) (RExc e) m' = (m', Fail e)
  end.
Proof.
  intros Hs. unfold close, bind, get, when. run.
  destruct (transport m) as [t|]; destruct (connected_future m) as [f|] eqn:Hc; run;
    try reflexivity; intros Hf; apply fut_state_lookup in Hf;
    unfold await_future, await_on; rewrite Hf; run; repeat split.
Qed.

Lemma close_while_connecting_awaits_connect_witness :
  fst (close (init sample_options CONNECTING)) = init sample_options CONNECTING /\
  awaiting (snd (close (init sample_options CONNECTING))) = Some (AwFuture 0) /\
  forall e m', continue (snd (close (init sample_options CONNECTING))) (RExc e) m'
               = (m', Fail e).
Proof.
  exact (close_while_connecting_awaits_connect (init sample_options CONNECTING)
           eq_refl eq_refl).
Defined.

(** With no transport, in the states connected, disconnected and
    closing, [close()] skips the handshake: without suspending it emits
    the change to closing and the change to closed, and it leaves behind
    a close future that is still pending. *)
Theorem close_without_transport_skips_handshake (m : Mgr) :
  state m = CONNECTED \/ state m = DISCONNECTED \/ state m = CLOSING ->
  transport m = None ->
  snd (close m) = Done tt /\
  state (fst (close m)) = CLOSED /\
  emitted (fst (close m))
  = emitted m ++ [{| previous := state m; current := CLOSING; reason := None |};
                  {| previous := CLOSING; current := CLOSED; reason := None |}] /\
  closed_future (fst (close m)) = Some (length (futures m)) /\
  futures (fst (close m)) = futures m ++ [Pending] /\
  calls (fst (close m)) = calls m.
Proof.
  intros Hs Ht. unfold close, bind, get, when. run. rewrite Ht.
  destruct (bool_decide (state m = DISCONNECTED));
    repeat (progress (rewrite ?Ht; run)); rewrite <- ?app_assoc; repeat split.
Qed.

Lemma close_without_transport_skips_handshake_witness :
  snd (close (init sample_options CLOSING)) = Done tt /\
  state (fst (close (init sample_options CLOSING))) = CLOSED.
Proof.
  pose proof (close_without_transport_skips_handshake (init sample_options CLOSING)
                (or_intror (or_intror eq_refl)) eq_refl) as H.
  split; [exact (proj1 H) | exact (proj1 (proj2 H))].
Defined.

(** ** ping and heartbeat frames *)

(** [ping()] in the state connected or connecting, with a transport and
    no ping outstanding: it creates the ping future, records the id and
    sends one heartbeat frame carrying it, with no change of state. When
    the send call returns with the future still pending, it waits for
    the future under [realtime_request_timeout]; on timeout it raises the
    ping timeout error, and when the future is resolved it returns a
    response time instead of raising (the number itself is computed in
    floating point by the source and is not stated here). *)
Theorem ping_sends_heartbeat_and_waits (m : Mgr) (rid : string) (t : tref) :
  ping_future m = None -> state m = CONNECTED \/ state m = CONNECTING ->
  transport m = Some t ->
  let f := length (futures m) in
  let m1 := fst (ping rid m) in
  let s1 := snd (ping rid m) in
  (ping_id m1 = Some rid /\ ping_future m1 = Some f /\ futures m1 = futures m ++ [Pending] /\
   calls m1 = calls m ++ [(t, TSend (heartbeat_frame rid))] /\
   state m1 = state m /\ emitted m1 = emitted m /\
   awaiting s1 = Some (AwTransport t (TSend (heartbeat_frame rid)))) /\
  forall m2, ping_future m2 = Some f -> futures m2 !! f = Some Pending ->
    fst (continue s1 ROk m2) = m2 /\
    awaiting (snd (continue s1 ROk m2))
    = Some (AwWaitFor f false (realtime_request_timeout (options m2) # 1000)) /\
    (forall m3, continue (snd (continue s1 ROk m2)) (RExc TimeoutError) m3
                = (m3, Fail ping_timeout_error)) /\
    (forall m3, exists response_time,
       continue (snd (continue s1 ROk m2)) ROk m3 = (m3, Done (Some response_time))).
Proof.
  intros Hp Hs Ht. cbv zeta.
  unfold ping, send_protocol_message, bind, get. rewrite Hp. run. rewrite Ht. run.
  split; [repeat split |].
  intros m2 Hp2 Hf2. apply fut_state_lookup in Hf2.
  unfold try_except, wait_for, await_on, bind, get. run. rewrite Hp2. run. rewrite Hf2. run.
  split; [reflexivity |]. split; [reflexivity |]. split; [intros m3; reflexivity |].
  intros m3. eexists. reflexivity.
Qed.

Lemma ping_sends_heartbeat_and_waits_witness :
  calls (fst (ping "a1" (mgr connected_world)))
  = [(0, TConnect); (0, TSend (heartbeat_frame "a1"))] /\
  awaiting (snd (ping "a1" (mgr connected_world)))
  = Some (AwTransport 0 (TSend (heartbeat_frame "a1"))).
Proof.
  pose proof (ping_sends_heartbeat_and_waits (mgr connected_world) "a1" 0
                eq_refl (or_introl eq_refl) eq_refl) as H.
  cbv zeta in H. destruct H as [(_ & _ & _ & H1 & _ & _ & H2) _].
  split; [exact H1 | exact H2].
Defined.

(** When the heartbeat that answers the ping is handled before the send
    call returns, the handler has cleared [ping_future], and [ping()]
    raises [TypeError] on waiting for it. *)
Theorem ping_answered_before_send_returns (m : Mgr) (rid : string) (t : tref) :
  ping_future m = None -> state m = CONNECTED \/ state m = CONNECTING ->
  transport m = Some t ->
  forall m2, ping_future m2 = None ->
    continue (snd (ping rid m)) ROk m2 = (m2, Fail TypeError).
Proof.
  intros Hp Hs Ht m2 Hp2.
  unfold ping, send_protocol_message, bind, get. rewrite Hp. run. rewrite Ht. run.
  unfold try_except, bind, get. run. rewrite Hp2. reflexivity.
Qed.

Lemma ping_answered_before_send_returns_witness :
  continue (snd (ping "a1" (mgr connected_world))) ROk
    (fst (on_protocol_message (heartbeat_frame "a1") (fst (ping "a1" (mgr connected_world)))))
  = (fst (on_protocol_message (heartbeat_frame "a1") (fst (ping "a1" (mgr connected_world)))),
     Fail TypeError).
Proof.
  exact (ping_answered_before_send_returns (mgr connected_world) "a1" 0
           eq_refl (or_introl eq_refl) eq_refl
           (fst (on_protocol_message (heartbeat_frame "a1")
                   (fst (ping "a1" (mgr connected_world)))))
           eq_refl).
Defined.

(** With no transport, [ping()] in the state connected or connecting
    raises the bare [Exception] of [send_protocol_message], and leaves
    [ping_future] set to the future it created. *)
Theorem ping_without_transport_raises (m : Mgr) (rid : string) :
  ping_future m = None -> state m = CONNECTED \/ state m = CONNECTING ->
  transport m = None ->
  snd (ping rid m) = Fail Exception_ /\
  ping_future (fst (ping rid m)) = Some (length (futures m)) /\
  futures (fst (ping rid m)) = futures m ++ [Pending] /\
  calls (fst (ping rid m)) = calls m.
Proof.
  intros Hp Hs Ht.
  unfold ping, send_protocol_message, bind, get. rewrite Hp. run. rewrite Ht. run.
  repeat split.
Qed.

Lemma ping_without_transport_raises_witness :
  snd (ping "a1" (with_ping_future None (init sample_options CONNECTING))) = Fail Exception_.
Proof.
  exact (proj1 (ping_without_transport_raises
                  (with_ping_future None (init sample_options CONNECTING)) "a1"
                  eq_refl (or_intror eq_refl) eq_refl)).
Defined.

(** Once the wait of a [ping()] has timed out, the ping future is
    cancelled and the field still holds it: every further [ping()] fails
    at once with the cancelled-ping error, whatever the state, and sends
    nothing. *)
Theorem ping_after_timeout_fails_at_once (m : Mgr) (rid : string) (f : fut) :
  ping_future m = Some f -> futures m !! f = Some Cancelled ->
  ping rid m = (m, Fail ping_cancelled_error).
Proof.
  intros Hp Hf. apply fut_state_lookup in Hf.
  unfold ping, bind, get, try_except. rewrite Hp. run. rewrite Hp.
  unfold await_future, await_on. rewrite Hf. reflexivity.
Qed.

Lemma ping_after_timeout_fails_at_once_witness :
  let m := with_ping_future (Some 0) (with_futures [Cancelled] (init sample_options CONNECTED)) in
  ping "a2" m = (m, Fail ping_cancelled_error).
Proof.
  exact (ping_after_timeout_fails_at_once
           (with_ping_future (Some 0) (with_futures [Cancelled] (init sample_options CONNECTED)))
           "a2" 0 eq_refl eq_refl).
Defined.

(** A heartbeat frame whose id is the recorded ping id resolves the
    pending ping future and clears the field; nothing else changes. *)
Theorem heartbeat_resolves_ping (m : Mgr) (msg : Frame) (f : fut) (pid : string) :
  action msg = ProtocolMessageAction.HEARTBEAT ->
  ping_future m = Some f -> futures m !! f = Some Pending ->
  ping_id m = Some pid -> id msg = Some pid ->
  on_protocol_message msg m
  = (with_ping_future None (with_futures (<[f := Result]> (futures m)) m), Done tt).
Proof.
  intros Ha Hp Hf Hi Hm. apply fut_state_lookup in Hf.
  unfold on_protocol_message, bind, get, when, cancelled, set_result. rewrite Ha. run.
  rewrite Hp. run. rewrite Hi. run. rewrite Hf. reflexivity.
Qed.

Lemma heartbeat_resolves_ping_witness :
  ping_future (fst (on_protocol_message (heartbeat_frame "a1")
                      (fst (ping "a1" (mgr connected_world))))) = None /\
  futures (fst (on_protocol_message (heartbeat_frame "a1")
                  (fst (ping "a1" (mgr connected_world))))) = [Result; Result].
Proof.
  rewrite (heartbeat_resolves_ping (fst (ping "a1" (mgr connected_world)))
             (heartbeat_frame "a1") 1 "a1" eq_refl eq_refl eq_refl eq_refl eq_refl).
  split; reflexivity.
Defined.

(** A heartbeat frame that answers no ping changes nothing: there is no
    ping outstanding, or the frame's id (if it has one) is not the
    recorded ping id. *)
Theorem heartbeat_unrelated_is_ignored (m : Mgr) (msg : Frame) :
  action msg = ProtocolMessageAction.HEARTBEAT ->
  ping_future m = None \/ (exists pid, ping_id m = Some pid /\ id msg <> Some pid) ->
  on_protocol_message msg m = (m, Done tt).
Proof.
  intros Ha H. unfold on_protocol_message, bind, get, when. rewrite Ha. run.
  destruct H as [Hp | (pid & Hi & Hm)].
  - rewrite Hp. reflexivity.
  - destruct (ping_future m); [| reflexivity]. run. rewrite Hi. run. reflexivity.
Qed.

Lemma heartbeat_unrelated_is_ignored_witness :
  on_protocol_message (heartbeat_frame "zz") (fst (ping "a1" (mgr connected_world)))
  = (fst (ping "a1" (mgr connected_world)), Done tt).
Proof.
  apply (heartbeat_unrelated_is_ignored (fst (ping "a1" (mgr connected_world)))
           (heartbeat_frame "zz") eq_refl).
  right. exists "a1". split; [reflexivity | discriminate].
Defined.

(** A [ping()] in an invalid state, made on a manager that never sent a
    ping, sets [ping_future] but not the ping id: from then on the
    handling of any heartbeat frame raises [AttributeError]. *)
Theorem heartbeat_after_invalid_ping_raises (m : Mgr) (rid : string) (msg : Frame) :
  ping_future m = None -> ping_id m = None ->
  state m <> CONNECTED -> state m <> CONNECTING ->
  action msg = ProtocolMessageAction.HEARTBEAT ->
  on_protocol_message msg (fst (ping rid m)) = (fst (ping rid m), Fail AttributeError).
Proof.
  intros Hp Hi Hs1 Hs2 Ha. rewrite ping_invalid_run by assumption. cbn [fst].
  unfold on_protocol_message, bind, get, when. rewrite Ha. run. rewrite Hi. reflexivity.
Qed.

Lemma heartbeat_after_invalid_ping_raises_witness :
  on_protocol_message (heartbeat_frame "a1") (fst (ping "a1" (init sample_options INITIALIZED)))
  = (fst (ping "a1" (init sample_options INITIALIZED)), Fail AttributeError).
Proof.
  apply (heartbeat_after_invalid_ping_raises (init sample_options INITIALIZED) "a1"
           (heartbeat_frame "a1")); [reflexivity | reflexivity | discriminate | discriminate |
                                    reflexivity].
Defined.

(** ** The other frames *)

(** A connected frame, handled with no connect future or with one that
    is pending or cancelled, never raises: it marks the transport as
    connected, resolves the future if it is pending, clears the field and
    moves to connected. It calls no transport and creates no task. *)
Theorem connected_frame_establishes (m : Mgr) (msg : Frame) :
  action msg = ProtocolMessageAction.CONNECTED ->
  (forall f, connected_future m = Some f ->
     futures m !! f = Some Pending \/ futures m !! f = Some Cancelled) ->
  let m1 := fst (on_protocol_message msg m) in
  snd (on_protocol_message msg m) = Done tt /\
  state m1 = CONNECTED /\
  emitted m1 = emitted m ++ [{| previous := state m; current := CONNECTED; reason := None |}] /\
  connected_future m1 = None /\
  (forall f, connected_future m = Some f -> futures m !! f = Some Pending ->
     futures m1 = <[f := Result]> (futures m)) /\
  (forall f, connected_future m = Some f -> futures m !! f = Some Cancelled ->
     futures m1 = futures m) /\
  (connected_future m = None -> futures m1 = futures m) /\
  (forall t tr, transport m = Some t -> transports m !! t = Some tr ->
     transports m1 !! t
     = Some {| is_connected := true; ws_connect_task := ws_connect_task tr |}) /\
  calls m1 = calls m /\ created m1 = created m.
Proof.
  intros Ha Hf. cbv zeta.
  unfold on_protocol_message, bind, get, when, cancelled, set_result, set_is_connected.
  rewrite Ha. run.
  assert (Hal : forall t tr, transports m !! t = Some tr ->
            alter (fun tr => {| is_connected := true; ws_connect_task := ws_connect_task tr |})
              t (transports m) !! t
            = Some {| is_connected := true; ws_connect_task := ws_connect_task tr |}).
  { intros t tr Htr. rewrite list_lookup_alter_eq, Htr. reflexivity. }
  destruct (connected_future m) as [f|] eqn:Hc.
  - destruct (Hf f eq_refl) as [Hp | Hp];
      destruct (transport m) as [t|] eqn:Ht; unfold get, fut_state in *;
      repeat (progress (rewrite ?Hc, ?Hp; run));
      repeat split; try congruence; intros; simplify_eq; auto.
  - destruct (transport m) as [t|] eqn:Ht; repeat (progress (rewrite ?Hc; run));
      repeat split; try congruence; intros; simplify_eq; auto.
Qed.

Lemma connected_frame_establishes_witness :
  snd (on_protocol_message connected_frame connecting_mgr) = Done tt /\
  state (fst (on_protocol_message connected_frame connecting_mgr)) = CONNECTED.
Proof.
  assert (H : forall f, connected_future connecting_mgr = Some f ->
            futures connecting_mgr !! f = Some Pending \/
            futures connecting_mgr !! f = Some Cancelled).
  { intros f [= <-]. left. reflexivity. }
  pose proof (connected_frame_establishes connecting_mgr connected_frame eq_refl H) as H'.
  cbv zeta in H'. split; [exact (proj1 H') | exact (proj1 (proj2 H'))].
Defined.

(** An error frame that is not fatal changes nothing; an error frame
    with no [error] member raises [KeyError]. *)
Theorem nonfatal_error_frame_is_ignored (m : Mgr) (msg : Frame) :
  action msg = ProtocolMessageAction.ERROR ->
  match error msg with
  | Some err => nonfatal err = true -> on_protocol_message msg m = (m, Done tt)
  | None => on_protocol_message msg m = (m, Fail KeyError)
  end.
Proof.
  intros Ha. unfold on_protocol_message, bind, get, when. rewrite Ha. run.
  destruct (error msg) as [err|]; [intros Hn; rewrite Hn |]; reflexivity.
Qed.

Lemma nonfatal_error_frame_is_ignored_witness :
  on_protocol_message
    {| action := ProtocolMessageAction.ERROR; error := None; id := None |}
    (mgr connected_world)
  = (mgr connected_world, Fail KeyError).
Proof.
  exact (nonfatal_error_frame_is_ignored (mgr connected_world)
           {| action := ProtocolMessageAction.ERROR; error := None; id := None |} eq_refl).
Defined.

(** Attached, detached and message frames are handed to the channels as
    they are, and frames of any other action that the manager does not
    dispatch on are dropped: in both cases the state, the futures and
    the transport are left alone. *)
Theorem channel_frames_are_forwarded (m : Mgr) (msg : Frame) :
  (action msg = ProtocolMessageAction.ATTACHED \/
   action msg = ProtocolMessageAction.DETACHED \/
   action msg = ProtocolMessageAction.MESSAGE ->
   on_protocol_message msg m = (with_forwarded (forwarded m ++ [msg]) m, Done tt)) /\
  (forall c, action msg = ProtocolMessageAction.OTHER c ->
     on_protocol_message msg m = (m, Done tt)).
Proof.
  split.
  - intros Ha. unfold on_protocol_message, bind, get, when. run. reflexivity.
  - intros c Ha. unfold on_protocol_message, bind, get, when. rewrite Ha. run. reflexivity.
Qed.

Lemma channel_frames_are_forwarded_witness :
  on_protocol_message
    {| action := ProtocolMessageAction.MESSAGE; error := None; id := None |}
    (mgr connected_world)
  = (with_forwarded
       [{| action := ProtocolMessageAction.MESSAGE; error := None; id := None |}]
       (mgr connected_world),
     Done tt).
Proof.
  apply (proj1 (channel_frames_are_forwarded (mgr connected_world)
                  {| action := ProtocolMessageAction.MESSAGE; error := None; id := None |})).
  right. right. reflexivity.
Defined.

(** ** Attempts and their completion *)

(** The completion of a failed (or cancelled) attempt in a state other
    than closed, failed and disconnected, with the connect future absent
    or pending: the future is failed with the attempt's error and
    cleared, the state moves to disconnected with that error as reason,
    and exactly one retry task is created. *)
Theorem failed_attempt_schedules_one_retry (m : Mgr) (o : task_outcome) (exc : exn) :
  failure o = Some exc ->
  state m <> CLOSED -> state m <> FAILED -> state m <> DISCONNECTED ->
  (forall f, connected_future m = Some f -> futures m !! f = Some Pending) ->
  let m1 := fst (on_connection_attempt_done o m) in
  snd (on_connection_attempt_done o m) = Done tt /\
  state m1 = DISCONNECTED /\
  emitted m1 = emitted m ++
    [{| previous := state m; current := DISCONNECTED; reason := Some exc |}] /\
  connected_future m1 = None /\
  (forall f, connected_future m = Some f -> futures m1 = <[f := Failed_with exc]> (futures m)) /\
  created m1 = created m ++ [T_retry] /\
  calls m1 = calls m.
Proof.
  intros Ho Hs1 Hs2 Hs3 Hf. cbv zeta.
  assert (He : on_connection_attempt_done o m = on_connection_attempt_done (Raised exc) m)
    by (destruct o; cbn in Ho; simplify_eq; reflexivity).
  rewrite He. clear He Ho.
  unfold on_connection_attempt_done, bind, get, when, set_exception. run.
  destruct (connected_future m) as [f|] eqn:Hc; run.
  - rewrite (fut_state_lookup _ _ _ (Hf f eq_refl)). run.
    repeat split; intros; simplify_eq; reflexivity.
  - repeat split; intros; simplify_eq; auto.
Qed.

Lemma failed_attempt_schedules_one_retry_witness :
  state (fst (on_connection_attempt_done WasCancelled connecting_mgr)) = DISCONNECTED /\
  created (fst (on_connection_attempt_done WasCancelled connecting_mgr))
  = [T_connect; T_retry].
Proof.
  assert (H : forall f, connected_future connecting_mgr = Some f ->
            futures connecting_mgr !! f = Some Pending).
  { intros f [= <-]. reflexivity. }
  pose proof (failed_attempt_schedules_one_retry connecting_mgr WasCancelled
                cancelled_exception eq_refl) as H'.
  cbv zeta in H'.
  assert (H1 : state connecting_mgr <> CLOSED) by discriminate.
  assert (H2 : state connecting_mgr <> FAILED) by discriminate.
  assert (H3 : state connecting_mgr <> DISCONNECTED) by discriminate.
  specialize (H' H1 H2 H3 H). destruct H' as (_ & Hs & _ & _ & _ & Hc & _).
  split; [exact Hs | exact Hc].
Defined.

(** When the connect future is set but already settled, the completion
    of a failed attempt in such a state raises [InvalidStateError] before
    anything is changed: the state stays as it is and no retry task is
    created, so the reconnection cycle ends there. *)
Theorem failed_attempt_on_settled_future_stops_retrying
    (m : Mgr) (o : task_outcome) (exc : exn) (f : fut) (s : FutureState) :
  failure o = Some exc ->
  state m <> CLOSED -> state m <> FAILED -> state m <> DISCONNECTED ->
  connected_future m = Some f -> futures m !! f = Some s -> s <> Pending ->
  on_connection_attempt_done o m = (m, Fail InvalidStateError).
Proof.
  intros Ho Hs1 Hs2 Hs3 Hc Hf Hs.
  assert (He : on_connection_attempt_done o m = on_connection_attempt_done (Raised exc) m)
    by (destruct o; cbn in Ho; simplify_eq; reflexivity).
  rewrite He. clear He Ho. apply fut_state_lookup in Hf.
  unfold on_connection_attempt_done, bind, get, when, set_exception. run.
  rewrite Hc. run. rewrite Hf. destruct s; [congruence | reflexivity ..].
Qed.

Lemma failed_attempt_on_settled_future_stops_retrying_witness :
  let m := with_state CONNECTING (mgr timed_out_world) in
  on_connection_attempt_done (Raised connect_timeout_error) m = (m, Fail InvalidStateError).
Proof.
  refine (failed_attempt_on_settled_future_stops_retrying
            (with_state CONNECTING (mgr timed_out_world)) (Raised connect_timeout_error)
            connect_timeout_error 0 (Failed_with connect_timeout_error)
            eq_refl _ _ _ eq_refl eq_refl _); discriminate.
Defined.

(** In the state connecting an attempt creates no transport: with the
    connect future pending it changes nothing and awaits the future; it
    returns when the future is resolved and raises the reconnection
    error (504, 50003) when the wait is cancelled. With no connect future
    it creates one and awaits that. *)
Theorem attempt_while_connecting_only_awaits (m : Mgr) :
  state m = CONNECTING ->
  transports (fst (_connect m)) = transports m /\
  calls (fst (_connect m)) = calls m /\
  emitted (fst (_connect m)) = emitted m /\
  match connected_future m with
  | Some f =>
      futures m !! f = Some Pending ->
      fst (_connect m) = m /\ awaiting (snd (_connect m)) = Some (AwFuture f) /\
      (forall m', continue (snd (_connect m)) ROk m' = (m', Done tt)) /\
      (forall m', continue (snd (_connect m)) (RExc CancelledError) m'
                  = (m', Fail cancelled_exception))
  | None =>
      fst (_connect m)
      = with_connected_future (Some (length (futures m)))
          (with_futures (futures m ++ [Pending]) m) /\
      awaiting (snd (_connect m)) = Some (AwFuture (length (futures m))) /\
      (forall m', continue (snd (_connect m)) ROk m' = (m', Done tt)) /\
      (forall m', continue (snd (_connect m)) (RExc CancelledError) m'
                  = (m', Fail cancelled_exception))
  end.
Proof.
  intros Hs. unfold _connect, bind, get, try_except. run.
  destruct (connected_future m) as [f|] eqn:Hc; run; rewrite ?Hc.
  - unfold await_future, await_on.
    destruct (futures m !! f) as [s|] eqn:Hf.
    + rewrite (fut_state_lookup _ _ _ Hf).
      destruct s as [| |e|]; run; try destruct e; run;
        repeat split; intros; simplify_eq.
    + unfold fut_state. rewrite Hf. run. repeat split; intros; simplify_eq.
  - unfold await_future, await_on, fut_state. cbn.
    rewrite list_lookup_middle by reflexivity. run. repeat split.
Qed.

Lemma attempt_while_connecting_only_awaits_witness :
  transports (fst (_connect (init sample_options CONNECTING))) = [] /\
  calls (fst (_connect (init sample_options CONNECTING))) = [].
Proof.
  pose proof (attempt_while_connecting_only_awaits (init sample_options CONNECTING) eq_refl)
    as H.
  split; [exact (proj1 H) | exact (proj1 (proj2 H))].
Defined.

(** [connect()] made while the connect future is set and already
    settled starts no attempt and changes nothing: it returns or raises
    at once as the future tells. After an attempt that timed out, the
    future stays set and failed, so every later [connect()] raises that
    old error. *)
Theorem connect_on_settled_future_starts_nothing
    (m : Mgr) (f : fut) (s : FutureState) (r : resume) :
  connected_future m = Some f -> futures m !! f = Some s -> outcome s = Some r ->
  connect m = resumed r m.
Proof.
  intros Hc Hf Hr. apply fut_state_lookup in Hf.
  unfold connect, bind, get. rewrite Hc. run. rewrite Hc.
  unfold await_future, await_on. rewrite Hf, Hr. destruct r; reflexivity.
Qed.

Lemma connect_on_settled_future_starts_nothing_witness :
  connect (mgr timed_out_world) = (mgr timed_out_world, Fail connect_timeout_error).
Proof.
  exact (connect_on_settled_future_starts_nothing (mgr timed_out_world) 0
           (Failed_with connect_timeout_error) (RExc connect_timeout_error)
           eq_refl eq_refl eq_refl).
Defined.

(** An attempt whose connect future is gone when the transport's connect
    call returns raises [TypeError] instead of waiting: no timer is
    started, the state is not changed and the transport is not disposed.
    This is the case of every retry that follows an attempt whose
    completion cleared the future. *)
Theorem attempt_without_connect_future_raises (m m2 : Mgr) :
  connected_future m2 = None ->
  continue (snd (connect_impl m)) ROk m2 = (m2, Fail TypeError).
Proof.
  intros Hc. unfold connect_impl, bind, get, try_except. run. rewrite Hc. reflexivity.
Qed.

Lemma attempt_without_connect_future_raises_witness :
  continue (snd (connect_impl (init sample_options DISCONNECTED))) ROk
    (fst (connect_impl (init sample_options DISCONNECTED)))
  = (fst (connect_impl (init sample_options DISCONNECTED)), Fail TypeError).
Proof.
  exact (attempt_without_connect_future_raises (init sample_options DISCONNECTED)
           (fst (connect_impl (init sample_options DISCONNECTED))) eq_refl).
Defined.

(** Only the timeout is handled by an attempt. When the transport's
    connect call fails, or when the connect future fails with another
    error while the attempt waits, the attempt raises that error and
    changes nothing: no transition, no dispose call. *)
Theorem attempt_passes_on_other_failures (m : Mgr) :
  (forall e m2, continue (snd (connect_impl m)) (RExc e) m2 = (m2, Fail e)) /\
  (forall m2 f, connected_future m2 = Some f -> futures m2 !! f = Some Pending ->
     forall e m3, e <> TimeoutError ->
       continue (snd (continue (snd (connect_impl m)) ROk m2)) (RExc e) m3 = (m3, Fail e)).
Proof.
  unfold connect_impl, bind, get, try_except. run. split.
  - intros e m2. reflexivity.
  - intros m2 f Hc Hf e m3 He. apply fut_state_lookup in Hf.
    rewrite Hc. unfold wait_for, await_on. rewrite Hf. run.
    destruct e; try reflexivity. congruence.
Qed.

Lemma attempt_passes_on_other_failures_witness :
  continue (snd (continue (snd (connect_impl
              (fst (connect (init sample_options INITIALIZED))))) ROk connecting_mgr))
    (RExc (AblyAuthException "Invalid key" 401 40005)) connecting_mgr
  = (connecting_mgr, Fail (AblyAuthException "Invalid key" 401 40005)).
Proof.
  refine (proj2 (attempt_passes_on_other_failures
                   (fst (connect (init sample_options INITIALIZED))))
            connecting_mgr 0 eq_refl eq_refl _ connecting_mgr _).
  discriminate.
Defined.

(** ** The facade *)

Lemma facade_state_follows (l : list ConnectionStateChange) (c : Connection.t)
    (s : ConnectionState.t) :
  linked (Connection.state c) l s ->
  Connection.state (foldl Connection._on_state_update c l) = s.
Proof.
  revert c. induction l as [|e l IH]; intros c H; cbn in *.
  - assumption.
  - destruct H as [_ H]. apply IH. exact H.
Qed.

Lemma facade_reason_follows (l : list ConnectionStateChange) (c : Connection.t) :
  Connection.error_reason (foldl Connection._on_state_update c l)
  = from_option reason (Connection.error_reason c) (last l).
Proof.
  revert c. induction l as [|e l IH]; intros c; [reflexivity |].
  cbn [foldl]. rewrite IH. destruct l as [|e' l]; [reflexivity |].
  change (last (e :: e' :: l)) with (last (e' :: l)).
  destruct (last (e' :: l)) eqn:E; [reflexivity |].
  apply last_None in E. discriminate.
Qed.

Lemma facade_scheduled_follows (l : list ConnectionStateChange) (c : Connection.t) :
  Connection.scheduled (foldl Connection._on_state_update c l)
  = Connection.scheduled c ++ ((fun e => (current e, e)) <$> l).
Proof.
  revert c. induction l as [|e l IH]; intros c; cbn.
  - rewrite app_nil_r. reflexivity.
  - rewrite IH. cbn. rewrite <- app_assoc. reflexivity.
Qed.

(** In every world that a connection can reach, the facade, which only
    follows the manager's notifications, shows the manager's state; its
    [error_reason] is the reason of the latest change (none before the
    first), and it has scheduled for its own listeners every change once,
    in order, under the name of the state the change leads to. *)
Theorem facade_mirrors_manager (o : Options) (w : World) :
  reachable o w ->
  Connection.state (Connection.after o (emitted (mgr w))) = state (mgr w) /\
  Connection.error_reason (Connection.after o (emitted (mgr w)))
  = from_option reason None (last (emitted (mgr w))) /\
  Connection.scheduled (Connection.after o (emitted (mgr w)))
  = (fun e => (current e, e)) <$> emitted (mgr w).
Proof.
  intros [l Hl].
  assert (H : world_ok (chained (if auto_connect o then CONNECTING else INITIALIZED)) w).
  { eapply exec_ok; [| exact Hl]. apply start_world_ok. apply init_chained. }
  destruct H as [H _]. unfold Connection.after. split; [| split].
  - apply facade_state_follows. exact H.
  - apply facade_reason_follows.
  - apply facade_scheduled_follows.
Qed.

Lemma facade_mirrors_manager_witness :
  Connection.state (Connection.after sample_options (emitted (mgr timed_out_world)))
  = DISCONNECTED /\
  Connection.error_reason (Connection.after sample_options (emitted (mgr timed_out_world)))
  = Some connect_timeout_error.
Proof.
  assert (R : reachable sample_options timed_out_world)
    by (exists timeout_run; vm_compute; reflexivity).
  pose proof (facade_mirrors_manager sample_options timed_out_world R) as H.
  split; [exact (proj1 H) | exact (proj1 (proj2 H))].
Defined.

(** With [auto_connect] the manager is created in the state connecting
    with a pending connect future. On such a manager [connect()] starts
    no attempt: it changes nothing and awaits that future; and an attempt
    started on it opens no transport and awaits the same future. *)
Theorem auto_connect_manager_opens_no_transport (o : Options) :
  auto_connect o = true ->
  fst (connect (Connection_init o)) = Connection_init o /\
  awaiting (snd (connect (Connection_init o))) = Some (AwFuture 0) /\
  fst (_connect (Connection_init o)) = Connection_init o /\
  awaiting (snd (_connect (Connection_init o))) = Some (AwFuture 0) /\
  created (Connection_init o) = [] /\ transports (Connection_init o) = [].
Proof.
  intros Ha. unfold Connection_init. rewrite Ha.
  destruct (connect_joins (init o CONNECTING) 0 eq_refl eq_refl) as (H1 & H2 & _).
  split; [exact H1 |]. split; [exact H2 |].
  unfold _connect, bind, get, try_except. run. repeat split.
Qed.

Lemma auto_connect_manager_opens_no_transport_witness :
  awaiting (snd (connect (Connection_init
     {| realtime_request_timeout := 10000; disconnected_retry_timeout := 15000;
        auto_connect := true |}))) = Some (AwFuture 0).
Proof.
  exact (proj1 (proj2 (auto_connect_manager_opens_no_transport
     {| realtime_request_timeout := 10000; disconnected_retry_timeout := 15000;
        auto_connect := true |} eq_refl))).
Defined.

(** * Runs on which the code departs from the stated behaviour *)

(** C3 fails on the code, in two ways.
    A retry that is asleep when the fatal error frame comes in: after
    [fail_before_retry_run] the state is failed and the connect future of
    the refused attempt is failed and cleared, but the retry task (2) of
    an earlier attempt still sleeps. When its timer fires, a new attempt
    (task 6) leaves failed for connecting and connects a third transport;
    it raises [TypeError] for want of a connect future, and its done
    callback moves to disconnected and creates a further retry task (7).
    A connect future left failed by a timed out attempt: after
    [retry_run] the second attempt is connecting and holds that stale
    future. The fatal error frame (coroutine 4) moves to failed, then
    [set_exception] raises [InvalidStateError]: the handler raises that
    instead of the frame's error, and the transport (1) is not disposed. *)
Theorem fatal_error_is_not_final :
  state_after (start_world (Connection_init sample_options)) fail_before_retry_run
  = Some FAILED /\
  standings_after (start_world (Connection_init sample_options))
    (fail_before_retry_run ++ [Elapse 2; Start 6; Reply 6 ROk; Callback 6])
  = Some [(None, Awaits (AwFuture 0)); (Some T_connect, Raises (TransportError 0));
          (Some T_retry, Returns None); (None, Awaits (AwFuture 1));
          (Some T_connect, Raises (auth_error
             {| message := "Invalid key"; statusCode := 401; code := 40005;
                nonfatal := false |}));
          (None, Raises (auth_error
             {| message := "Invalid key"; statusCode := 401; code := 40005;
                nonfatal := false |}));
          (Some T_connect, Raises TypeError); (Some T_retry, NotStarted)] /\
  state_after (start_world (Connection_init sample_options))
    (fail_before_retry_run ++ [Elapse 2; Start 6; Reply 6 ROk; Callback 6])
  = Some DISCONNECTED /\
  (calls ∘ mgr <$> exec (start_world (Connection_init sample_options))
     (fail_before_retry_run ++ [Elapse 2; Start 6; Reply 6 ROk; Callback 6]))
  = Some [(0, TConnect); (1, TConnect); (1, TDispose); (2, TConnect)] /\
  state_after (start_world (Connection_init sample_options)) retry_run = Some CONNECTING /\
  state_after (start_world (Connection_init sample_options))
    (retry_run ++ [Call (CallFrame fatal_frame)])
  = Some FAILED /\
  standings_after (start_world (Connection_init sample_options))
    (retry_run ++ [Call (CallFrame fatal_frame)])
  = Some [(None, Awaits (AwFuture 0)); (Some T_connect, Raises connect_timeout_error);
          (Some T_retry, Returns None); (Some T_connect, Awaits (AwTransport 1 TConnect));
          (None, Raises InvalidStateError)] /\
  (calls ∘ mgr <$> exec (start_world (Connection_init sample_options))
     (retry_run ++ [Call (CallFrame fatal_frame)]))
  = Some [(0, TConnect); (0, TDispose); (1, TConnect)] /\
  (futures ∘ mgr <$> exec (start_world (Connection_init sample_options))
     (retry_run ++ [Call (CallFrame fatal_frame)]))
  = Some [Failed_with connect_timeout_error].
Proof. vm_compute. repeat split; reflexivity. Qed.

(** C4 fails on the code for the attempt that follows a timed out one.
    The first attempt does what the claim says ([timeout_run]), but
    [connect_impl] fails the connect future without clearing the field.
    The retried attempt (task 3, [retry_run]) moves to connecting and
    connects a second transport; when that call returns, the wait gives
    the old error of the stale failed future, not a timeout of its own.
    The attempt makes no
    transition to disconnected and does not dispose its transport; its
    done callback raises [InvalidStateError] into the loop and creates no
    retry task: the state stays connecting and nothing is under way. *)
Theorem retried_attempt_after_timeout_stalls :
  state_after (start_world (Connection_init sample_options)) timeout_run
  = Some DISCONNECTED /\
  standings_after (start_world (Connection_init sample_options)) retry_run
  = Some [(None, Awaits (AwFuture 0)); (Some T_connect, Raises connect_timeout_error);
          (Some T_retry, Returns None); (Some T_connect, Awaits (AwTransport 1 TConnect))] /\
  standings_after (start_world (Connection_init sample_options))
    (retry_run ++ [Reply 3 ROk; Callback 3])
  = Some [(None, Awaits (AwFuture 0)); (Some T_connect, Raises connect_timeout_error);
          (Some T_retry, Returns None); (Some T_connect, Raises connect_timeout_error)] /\
  state_after (start_world (Connection_init sample_options))
    (retry_run ++ [Reply 3 ROk; Callback 3])
  = Some CONNECTING /\
  (emitted ∘ mgr <$> exec (start_world (Connection_init sample_options))
     (retry_run ++ [Reply 3 ROk; Callback 3]))
  = Some [{| previous := INITIALIZED; current := CONNECTING; reason := None |};
          {| previous := CONNECTING; current := DISCONNECTED;
             reason := Some connect_timeout_error |};
          {| previous := DISCONNECTED; current := CONNECTING; reason := None |}] /\
  (calls ∘ mgr <$> exec (start_world (Connection_init sample_options))
     (retry_run ++ [Reply 3 ROk; Callback 3]))
  = Some [(0, TConnect); (0, TDispose); (1, TConnect)] /\
  (loop_errors <$> exec (start_world (Connection_init sample_options))
     (retry_run ++ [Reply 3 ROk; Callback 3]))
  = Some [InvalidStateError].
Proof. vm_compute. repeat split; reflexivity. Qed.

